(** * Storage layer of actor-mesh-demo: session/context cache and conversation log

    A shallow embedding of [storage/redis_client.py],
    [storage/redis_client_simple.py] and [storage/sqlite_client.py].

    - Python values that travel through [json.dumps] / [json.loads] are the
      inductive [json]; a [dict] is an insertion-ordered association list,
      as a Python dict is.  Characters are code points below 256 and numbers
      are integers (floating-point literals are outside the fragment).
    - The Redis keyspace is a [gmap] from keys to entries (text and TTL).
    - An [async def] becomes a function in a state-and-exception monad over
      the engine's state; [await] is sequencing.
    - The wall clock belongs to the environment: an operation receives, as an
      argument, the text that its single reading of the clock returns. *)

From Stdlib Require Import ZArith String Ascii List Lia.
From Stdlib Require Import Decimal DecimalFacts DecimalPos DecimalZ.
From stdpp Require Import base option strings gmap list.

Local Open Scope Z_scope.
Local Open Scope string_scope.
Local Open Scope list_scope.

(* ===================================================================== *)
(** * JSON values and Python dict operations *)
(* ===================================================================== *)

Module Json.

Unset Elimination Schemes.
Inductive json : Type :=
| JNull
| JBool (b : bool)
| JInt (z : Z)
| JStr (s : string)
| JArr (l : list json)
| JObj (d : list (string * json)).
Set Elimination Schemes.

(** A Python [dict] with text keys, in insertion order. *)
Definition dict : Type := list (string * json).

(** [d.get(k)] *)
Fixpoint dict_get (d : dict) (k : string) : option json :=
  match d with
  | [] => None
  | (k', v) :: d' => if String.eqb k k' then Some v else dict_get d' k
  end.

(** [d[k] = v]: an existing key keeps its position, a new key goes last. *)
Fixpoint dict_set (d : dict) (k : string) (v : json) : dict :=
  match d with
  | [] => [(k, v)]
  | (k', v') :: d' =>
      if String.eqb k k' then (k, v) :: d' else (k', v') :: dict_set d' k v
  end.

(** [d.update(u)]: shallow merge, the entries of [u] win. *)
Definition dict_update (d u : dict) : dict :=
  fold_left (fun acc kv => dict_set acc (fst kv) (snd kv)) u d.

(** [dict(pairs)], what the decoder builds from the members it has read. *)
Definition dict_of_pairs (l : list (string * json)) : dict := dict_update [] l.

(** Python truthiness, as used by [x or default] and [if not x]. *)
Definition truthy (j : json) : bool :=
  match j with
  | JNull => false
  | JBool b => b
  | JInt z => negb (Z.eqb z 0)
  | JStr s => negb (String.eqb s "")
  | JArr l => match l with [] => false | _ :: _ => true end
  | JObj d => match d with [] => false | _ :: _ => true end
  end.

(** Well-formed values: no object has the same key twice. *)
Fixpoint wf (j : json) : Prop :=
  match j with
  | JArr l => (fix all (l : list json) : Prop :=
                 match l with [] => True | x :: l' => wf x /\ all l' end) l
  | JObj d => NoDup (map fst d) /\
              (fix all (d : list (string * json)) : Prop :=
                 match d with [] => True | kv :: d' => wf (snd kv) /\ all d' end) d
  | _ => True
  end.

(* --------------------------------------------------------------------- *)
(** ** Characters *)

Definition dquote : ascii := ascii_of_nat 34.
Definition backslash : ascii := ascii_of_nat 92.

Definition is_ws (c : ascii) : bool :=
  let n := nat_of_ascii c in
  ((n =? 32) || (n =? 9) || (n =? 10) || (n =? 13))%nat.

Fixpoint skip_ws (s : list ascii) : list ascii :=
  match s with
  | c :: r => if is_ws c then skip_ws r else s
  | [] => []
  end.

Definition hexchar (n : nat) : ascii :=
  match n with
  | 0 => "0" | 1 => "1" | 2 => "2" | 3 => "3" | 4 => "4" | 5 => "5"
  | 6 => "6" | 7 => "7" | 8 => "8" | 9 => "9" | 10 => "a" | 11 => "b"
  | 12 => "c" | 13 => "d" | 14 => "e" | _ => "f"
  end%nat%char.

Definition hexval (c : ascii) : option nat :=
  let n := nat_of_ascii c in
  (if (48 <=? n) && (n <=? 57) then Some (n - 48)        (* 0-9 *)
   else if (97 <=? n) && (n <=? 102) then Some (n - 87)  (* a-f *)
   else if (65 <=? n) && (n <=? 70) then Some (n - 55)   (* A-F *)
   else None)%nat.

(* --------------------------------------------------------------------- *)
(** ** Text literals

    [json.dumps] escapes the quote, the backslash and every character
    outside the printable ASCII range [' '..'~']. *)

Definition escape_char (c : ascii) : list ascii :=
  let n := nat_of_ascii c in
  (if n =? 34 then [backslash; dquote]
   else if n =? 92 then [backslash; backslash]
   else if n =? 10 then [backslash; "n"%char]
   else if n =? 13 then [backslash; "r"%char]
   else if n =? 9 then [backslash; "t"%char]
   else if n =? 8 then [backslash; "b"%char]
   else if n =? 12 then [backslash; "f"%char]
   else if (n <? 32) || (126 <? n) then
     [backslash; "u"; "0"; "0"; hexchar (n / 16); hexchar (n mod 16)]%char
   else [c])%nat.

Definition quote (s : string) : list ascii :=
  dquote :: flat_map escape_char (list_ascii_of_string s) ++ [dquote].

(** The single-character escapes the decoder accepts after a backslash. *)
Definition unescape (e : ascii) : option ascii :=
  let n := nat_of_ascii e in
  (if n =? 34 then Some dquote
   else if n =? 92 then Some backslash
   else match e with
        | "/" => Some "/"
        | "n" => Some (ascii_of_nat 10)
        | "r" => Some (ascii_of_nat 13)
        | "t" => Some (ascii_of_nat 9)
        | "b" => Some (ascii_of_nat 8)
        | "f" => Some (ascii_of_nat 12)
        | _ => None
        end%char)%nat.

(** [\u00XY]: a code point below 256. *)
Definition hex4 (h1 h2 h3 h4 : ascii) : option ascii :=
  match hexval h1, hexval h2, hexval h3, hexval h4 with
  | Some 0%nat, Some 0%nat, Some a, Some b => Some (ascii_of_nat (16 * a + b))
  | _, _, _, _ => None
  end.

Definition cons_fst {A B : Type} (a : A) (r : option (list A * B)) :
  option (list A * B) :=
  match r with
  | Some (l, b) => Some (a :: l, b)
  | None => None
  end.

(** Reads the body of a text literal, after its opening quote, up to and
    including the closing quote. *)
Fixpoint parse_string (s : list ascii) : option (list ascii * list ascii) :=
  match s with
  | [] => None
  | c :: r =>
      if Ascii.eqb c dquote then Some ([], r)
      else if Ascii.eqb c backslash then
        match r with
        | [] => None
        | e :: r1 =>
            match unescape e with
            | Some c' => cons_fst c' (parse_string r1)
            | None =>
                if Ascii.eqb e "u" then
                  match r1 with
                  | h1 :: h2 :: h3 :: h4 :: r2 =>
                      match hex4 h1 h2 h3 h4 with
                      | Some c' => cons_fst c' (parse_string r2)
                      | None => None
                      end
                  | _ => None
                  end
                else None
            end
        end
      else if (nat_of_ascii c <? 32)%nat then None
      else cons_fst c (parse_string r)
  end.

(* --------------------------------------------------------------------- *)
(** ** Integers *)

Fixpoint print_uint (u : Decimal.uint) : list ascii :=
  match u with
  | Nil => []
  | D0 u => "0" :: print_uint u | D1 u => "1" :: print_uint u
  | D2 u => "2" :: print_uint u | D3 u => "3" :: print_uint u
  | D4 u => "4" :: print_uint u | D5 u => "5" :: print_uint u
  | D6 u => "6" :: print_uint u | D7 u => "7" :: print_uint u
  | D8 u => "8" :: print_uint u | D9 u => "9" :: print_uint u
  end%char.

Definition print_int (z : Z) : list ascii :=
  match Z.to_int z with
  | Decimal.Pos u => print_uint u
  | Decimal.Neg u => "-"%char :: print_uint u
  end.

Definition digit_of (c : ascii) : option (Decimal.uint -> Decimal.uint) :=
  match c with
  | "0" => Some D0 | "1" => Some D1 | "2" => Some D2 | "3" => Some D3
  | "4" => Some D4 | "5" => Some D5 | "6" => Some D6 | "7" => Some D7
  | "8" => Some D8 | "9" => Some D9
  | _ => None
  end%char.

Fixpoint parse_uint (s : list ascii) : Decimal.uint * list ascii :=
  match s with
  | [] => (Nil, [])
  | c :: r =>
      match digit_of c with
      | Some d => let (u, r') := parse_uint r in (d u, r')
      | None => (Nil, s)
      end
  end.

(** At least one digit, and no leading zero. *)
Definition canonical (u : Decimal.uint) : bool :=
  match u with
  | Nil => false
  | D0 Nil => true
  | D0 _ => false
  | _ => true
  end.

Definition parse_int (s : list ascii) : option (Z * list ascii) :=
  match s with
  | "-"%char :: r =>
      let (u, r') := parse_uint r in
      if canonical u then Some (Z.of_int (Decimal.Neg u), r') else None
  | _ =>
      let (u, r') := parse_uint s in
      if canonical u then Some (Z.of_int (Decimal.Pos u), r') else None
  end.

(* --------------------------------------------------------------------- *)
(** ** Encoder

    [sp] is what follows a comma or a colon: one space for [json.dumps],
    nothing for the compact writer of [model_dump_json]. *)

Fixpoint print_items {A : Type} (pr : A -> list ascii) (sp : list ascii)
    (close : ascii) (l : list A) : list ascii :=
  match l with
  | [] => [close]
  | x :: l' =>
      pr x ++ match l' with
              | [] => [close]
              | _ :: _ => ","%char :: sp ++ print_items pr sp close l'
              end
  end.

Definition print_member (pr : json -> list ascii) (sp : list ascii)
    (kv : string * json) : list ascii :=
  let (k, v) := kv in quote k ++ ":"%char :: sp ++ pr v.

Fixpoint print (sp : list ascii) (j : json) : list ascii :=
  match j with
  | JNull => list_ascii_of_string "null"
  | JBool true => list_ascii_of_string "true"
  | JBool false => list_ascii_of_string "false"
  | JInt z => print_int z
  | JStr s => quote s
  | JArr l => "["%char :: print_items (print sp) sp "]"%char l
  | JObj d => "{"%char :: print_items (print_member (print sp) sp) sp "}"%char d
  end.

(** [json.dumps(j)] *)
Definition dumps (j : json) : string :=
  string_of_list_ascii (print [" "%char] j).

(** The compact form written by pydantic's [model_dump_json]. *)
Definition dumps_compact (j : json) : string :=
  string_of_list_ascii (print [] j).

(* --------------------------------------------------------------------- *)
(** ** Decoder *)

Fixpoint parse_value (n : nat) (s : list ascii) {struct n} :
    option (json * list ascii) :=
  match n with
  | O => None
  | S n' =>
      match s with
      | [] => None
      | c :: r =>
          if Ascii.eqb c dquote then
            match parse_string r with
            | Some (cs, r') => Some (JStr (string_of_list_ascii cs), r')
            | None => None
            end
          else
            match c with
            | "[" =>
                match skip_ws r with
                | [] => None
                | c0 :: r0 =>
                    if Ascii.eqb c0 "]" then Some (JArr [], r0)
                    else
                      match parse_elems n' (c0 :: r0) with
                      | Some (l, r') => Some (JArr l, r')
                      | None => None
                      end
                end
            | "{" =>
                match skip_ws r with
                | [] => None
                | c0 :: r0 =>
                    if Ascii.eqb c0 "}" then Some (JObj [], r0)
                    else
                      match parse_members n' (c0 :: r0) with
                      | Some (l, r') => Some (JObj (dict_of_pairs l), r')
                      | None => None
                      end
                end
            | "n" =>
                match r with
                | "u" :: "l" :: "l" :: r' => Some (JNull, r')
                | _ => None
                end
            | "t" =>
                match r with
                | "r" :: "u" :: "e" :: r' => Some (JBool true, r')
                | _ => None
                end
            | "f" =>
                match r with
                | "a" :: "l" :: "s" :: "e" :: r' => Some (JBool false, r')
                | _ => None
                end
            | _ =>
                match parse_int s with
                | Some (z, r') => Some (JInt z, r')
                | None => None
                end
            end%char
      end
  end
with parse_elems (n : nat) (s : list ascii) {struct n} :
    option (list json * list ascii) :=
  match n with
  | O => None
  | S n' =>
      match parse_value n' s with
      | Some (v, r) =>
          match skip_ws r with
          | "," :: r' =>
              match parse_elems n' (skip_ws r') with
              | Some (l, r'') => Some (v :: l, r'')
              | None => None
              end
          | "]" :: r' => Some ([v], r')
          | _ => None
          end%char
      | None => None
      end
  end
with parse_members (n : nat) (s : list ascii) {struct n} :
    option (list (string * json) * list ascii) :=
  match n with
  | O => None
  | S n' =>
      match s with
      | [] => None
      | c :: r =>
          if Ascii.eqb c dquote then
            match parse_string r with
            | Some (k, r1) =>
                match skip_ws r1 with
                | ":" :: r2 =>
                    match parse_value n' (skip_ws r2) with
                    | Some (v, r3) =>
                        match skip_ws r3 with
                        | "," :: r4 =>
                            match parse_members n' (skip_ws r4) with
                            | Some (l, r5) =>
                                Some ((string_of_list_ascii k, v) :: l, r5)
                            | None => None
                            end
                        | "}" :: r4 => Some ([(string_of_list_ascii k, v)], r4)
                        | _ => None
                        end
                    | None => None
                    end
                | _ => None
                end%char
            | None => None
            end
          else None
      end
  end.

(** [json.loads(s)] on the texts this development reads: null, booleans,
    integers, texts with the escapes that [dumps] writes, lists and objects.
    Where it answers [Some j], [json.loads] returns [j].  [None] stands for
    the [JSONDecodeError]; on JSON outside that range (a fraction, an
    exponent, an escape above 00FF) it is also the answer, so a statement
    about text that the decoder refuses is made with [surely_not_json]. *)
Definition loads (s : string) : option json :=
  let cs := skip_ws (list_ascii_of_string s) in
  match parse_value (S (length cs)) cs with
  | Some (j, r) => match skip_ws r with [] => Some j | _ :: _ => None end
  | None => None
  end.

(* --------------------------------------------------------------------- *)
(** ** Text that no JSON decoder accepts

    The decoder above covers integers and characters below 256; the real
    ones also read fractions, exponents and every [\u] escape.  Where a
    statement needs text that is certainly not JSON it uses this test, which
    looks at the first characters only. *)

Definition int_digit_or_minus (c : ascii) : bool :=
  Ascii.eqb c "-" || match digit_of c with Some _ => true | None => false end.

(** The characters a JSON value can start with; N and I open the NaN and
    Infinity that [json.loads] accepts. *)
Definition value_start (c : ascii) : bool :=
  Ascii.eqb c dquote || int_digit_or_minus c ||
  match c with
  | "{" | "[" | "t" | "f" | "n" | "N" | "I" => true
  | _ => false
  end%char.

(** Nothing but blanks; or a first character that opens no value; or an
    opening brace followed by something that is neither a quote nor the
    closing brace. *)
Definition surely_not_json (t : string) : bool :=
  match skip_ws (list_ascii_of_string t) with
  | [] => true
  | c :: r =>
      if negb (value_start c) then true
      else if Ascii.eqb c "{" then
        match skip_ws r with
        | [] => true
        | c' :: _ => negb (Ascii.eqb c' dquote || Ascii.eqb c' "}")
        end
      else false
  end.

(* --------------------------------------------------------------------- *)
(** ** Shapes of text, for stating that the decoder inverts the encoder *)

(** What may follow a number: anything but one more digit. *)
Definition no_digit_head (s : list ascii) : Prop :=
  match s with
  | [] => True
  | c :: _ => digit_of c = None
  end.

(** The first character of a number. *)
Definition int_head (c : ascii) : bool :=
  Ascii.eqb c "-" || match digit_of c with Some _ => true | None => false end.

(** A character that can open a value: neither blank nor a closing bracket. *)
Definition solid (c : ascii) : Prop :=
  is_ws c = false /\ Ascii.eqb c "]" = false /\ Ascii.eqb c "}" = false.

(** The decoder, given fuel for the length of the text of [j], reads [j]
    back and stops right after it. *)
Definition reads_back (sp : list ascii) (j : json) : Prop :=
  forall n rest,
    no_digit_head rest ->
    (length (print sp j) <= n)%nat ->
    parse_value n (print sp j ++ rest) = Some (j, rest).

End Json.

Import Json.

(* ===================================================================== *)
(** * Effects: engine state and exceptions *)
(* ===================================================================== *)

Module Effect.

(** The exceptions that can leave the modelled operations. *)
Inductive exn : Type :=
| JSONDecodeError   (* json.loads on text that is not JSON *)
| AttributeError    (* a method looked up on a value that lacks it *)
| ResponseError     (* the engine refused a command *)
| TypeError         (* a call whose arguments cannot be bound *)
| OperationalError. (* the relational engine could not run a statement *)

Inductive outcome (St A : Type) : Type :=
| Returned (a : A) (st : St)
| Raised (e : exn) (st : St).
Arguments Returned {St A} a st.
Arguments Raised {St A} e st.

(** A coroutine over the engine state [St]. *)
Definition M (St A : Type) : Type := St -> outcome St A.

Definition ret {St A : Type} (a : A) : M St A := fun st => Returned a st.

Definition bind {St A B : Type} (c : M St A) (k : A -> M St B) : M St B :=
  fun st =>
    match c st with
    | Returned a st' => k a st'
    | Raised e st' => Raised e st'
    end.

Definition raise {St A : Type} (e : exn) : M St A := fun st => Raised e st.

Definition gets {St A : Type} (f : St -> A) : M St A :=
  fun st => Returned (f st) st.

Definition modify {St : Type} (f : St -> St) : M St unit :=
  fun st => Returned tt (f st).

(** [try: c except Exception: h] *)
Definition try_except {St A : Type} (c : M St A) (h : M St A) : M St A :=
  fun st =>
    match c st with
    | Returned a st' => Returned a st'
    | Raised _ st' => h st'
    end.

End Effect.

Import Effect.

Notation "'await' x <- c ;; k" := (bind c (fun x => k))
  (at level 10, x name, c at level 99, k at level 200,
   format "'[v' 'await'  x  <-  c  ;; '/' k ']'").

(* ===================================================================== *)
(** * The cache engine *)
(* ===================================================================== *)

Module Redis.

(** A key holds a text and, when it was written with SETEX, the number of
    seconds after which the engine drops it. *)
Record entry : Type := Entry { value : string; ttl : option Z }.

(** The client's connection handle ([self.redis], here whether it is set)
    and the keyspace of the database it talks to. *)
Record state : Type := State { connected : bool; db : gmap string entry }.

Definition with_db (f : gmap string entry -> gmap string entry) (st : state) :
    state :=
  State (connected st) (f (db st)).

(** [redis.from_url(...)] followed by [ping()] *)
Definition connect : M state unit :=
  modify (fun st => State true (db st)).

(** [_ensure_connected] *)
Definition ensure_connected : M state unit :=
  await c <- gets connected ;;
  if c then ret tt else connect.

(** GET *)
Definition get (k : string) : M state (option string) :=
  gets (fun st => value <$> db st !! k).

(** SET, without expiry *)
Definition set (k v : string) : M state unit :=
  modify (with_db (insert k (Entry v None))).

(** The range of the engine's integers: signed 64 bits. *)
Definition LLONG_MIN : Z := - 2 ^ 63.
Definition LLONG_MAX : Z := 2 ^ 63 - 1.

Definition in_int64 (z : Z) : bool :=
  (LLONG_MIN <=? z)%Z && (z <=? LLONG_MAX)%Z.

(** SETEX: the engine refuses an expiry that is not positive, and one whose
    milliseconds do not fit its integers.  (It then adds its own clock, in
    milliseconds, and refuses a sum that does not fit either; the clock is
    not part of this state, so the seconds between [EXPIRE_SAFE] and
    [LLONG_MAX / 1000] are outside what the statements below rely on.) *)
Definition setex (k : string) (seconds : Z) (v : string) : M state unit :=
  if (seconds <=? 0)%Z || (LLONG_MAX / 1000 <? seconds)%Z
  then raise ResponseError
  else modify (with_db (insert k (Entry v (Some seconds)))).

(** Seconds that the engine accepts whatever its clock shows, as long as
    that clock is below 2^62 milliseconds. *)
Definition EXPIRE_SAFE : Z := 2 ^ 62 / 1000.

(** DEL of one key, answering how many keys it removed. *)
Definition delete (k : string) : M state Z :=
  await present <- gets (fun st => bool_decide (is_Some (db st !! k))) ;;
  await _ <- modify (with_db (base.delete k)) ;;
  ret (if present then 1 else 0).

(** [not data] for the answer of GET: nothing, or the empty text. *)
Definition falsy (data : option string) : bool :=
  match data with
  | None => true
  | Some t => String.eqb t ""
  end.

(** [ttl or default] *)
Definition ttl_or (t : option Z) (default : Z) : Z :=
  match t with
  | Some n => if (n =? 0)%Z then default else n
  | None => default
  end.

(** What [json.loads] hands back, with JSON [null] read as Python [None]. *)
Definition to_optional (j : json) : option json :=
  match j with
  | JNull => None
  | _ => Some j
  end.

(* --------------------------------------------------------------------- *)
(** ** Integer values and key iteration *)

Definition minus_zero (cs : list ascii) : bool :=
  match cs with
  | "-"%char :: "0"%char :: _ => true
  | _ => false
  end.

(** The engine's reading of a text as an integer: an optional minus sign
    and digits, with no leading zero, no sign on zero, nothing around them,
    and a value that fits 64 bits. *)
Definition string2ll (t : string) : option Z :=
  let cs := list_ascii_of_string t in
  match parse_int cs with
  | Some (z, []) =>
      if minus_zero cs then None
      else if in_int64 z then Some z else None
  | _ => None
  end.

(** The decimal text of an integer, as the engine writes it. *)
Definition ll2string (z : Z) : string := string_of_list_ascii (print_int z).

(** INCRBY: a missing key counts as 0; the key keeps its expiry; a value
    that is not an integer, or a sum that leaves 64 bits, is refused. *)
Definition incrby (k : string) (amount : Z) : M state Z :=
  if negb (in_int64 amount) then raise ResponseError
  else
    await old <- gets (fun st => db st !! k) ;;
    match old with
    | None =>
        await _ <- modify (with_db (insert k (Entry (ll2string amount) None))) ;;
        ret amount
    | Some e =>
        match string2ll (value e) with
        | None => raise ResponseError
        | Some n =>
            if in_int64 (n + amount) then
              await _ <- modify (with_db (insert k
                                   (Entry (ll2string (n + amount)) (ttl e)))) ;;
              ret (n + amount)
            else raise ResponseError
        end
    end.

(** An expiry argument the engine accepts once the default has replaced
    None and 0: it is not negative and within [EXPIRE_SAFE]. *)
Definition ttl_ok (t : option Z) : Prop :=
  match t with
  | Some n => (0 <= n <= EXPIRE_SAFE)%Z
  | None => True
  end.

(** The keys that [scan_iter(prefix + "*")] yields: those that start with
    the prefix, each once, in the engine's order. *)
Definition scan_iter (prefix : string) : M state (list string) :=
  gets (fun st =>
          filter (fun k => String.prefix prefix k = true)
            (map_to_list (db st)).*1).

End Redis.

(* ===================================================================== *)
(** * storage/redis_client.py *)
(* ===================================================================== *)

Module RedisClient.

Import Redis.

Record SessionState : Type := mkSession {
  session_id : string;
  customer_email : string;
  created_at : string;
  last_activity : string;
  context : dict;
  message_count : Z;
  status : string
}.

Definition SESSION_PREFIX : string := "session:".
Definition CONTEXT_PREFIX : string := "context:".
Definition TEMP_PREFIX : string := "temp:".
Definition COUNTER_PREFIX : string := "counter:".

Definition SESSION_TTL : Z := 3600 * 24.
Definition CONTEXT_TTL : Z := 3600 * 2.
Definition TEMP_TTL : Z := 300.

Definition _session_key (session_id : string) : string :=
  SESSION_PREFIX +:+ session_id.

Definition _context_key (customer_email : string) : string :=
  CONTEXT_PREFIX +:+ customer_email.

(** The attributes of a model instance, in the order the class declares
    them.  Assignment is not validated, so an attribute can hold any value. *)
Definition attrs_of (s : SessionState) : dict :=
  [ ("session_id", JStr (session_id s));
    ("customer_email", JStr (customer_email s));
    ("created_at", JStr (created_at s));
    ("last_activity", JStr (last_activity s));
    ("context", JObj (context s));
    ("message_count", JInt (message_count s));
    ("status", JStr (status s)) ].

(** [model_dump_json] of an instance with the given attributes. *)
Definition dump_attrs (a : dict) : string := dumps_compact (JObj a).

Definition model_dump_json (s : SessionState) : string :=
  dump_attrs (attrs_of s).

Definition required_str (d : dict) (k : string) : option string :=
  match dict_get d k with
  | Some (JStr t) => Some t
  | _ => None
  end.

(** Validation of decoded data against the schema: the four texts are
    required, the other fields fall back to their declared defaults, and
    unknown members are ignored.  A member must already have the type of its
    field: where the answer is [Some s] the validator returns [s].  The
    conversions pydantic tries on other inputs (a numeric text for
    [message_count], say) are not part of the model, so a statement about
    text that the validator refuses is made with [not_a_session] below, or
    on text of which the refusal does not hang on a conversion. *)
Definition model_validate (j : json) : option SessionState :=
  match j with
  | JObj d =>
      sid ← required_str d "session_id";
      email ← required_str d "customer_email";
      created ← required_str d "created_at";
      last ← required_str d "last_activity";
      ctx ← match dict_get d "context" with
            | None => Some []
            | Some (JObj c) => Some c
            | Some _ => None
            end;
      count ← match dict_get d "message_count" with
              | None => Some 0
              | Some (JInt n) => Some n
              | Some _ => None
              end;
      st ← match dict_get d "status" with
           | None => Some "active"
           | Some (JStr t) => Some t
           | Some _ => None
           end;
      Some (mkSession sid email created last ctx count st)
  | _ => None
  end.

(** [SessionState.model_validate_json]; [None] stands for the exception. *)
Definition model_validate_json (data : string) : option SessionState :=
  loads data ≫= model_validate.

(** [hasattr(session, field)], for the attributes the class declares.  A
    model instance also answers to the names every pydantic model inherits
    (its methods); statements about the loop below keep to the declared
    fields and to values for which [hasattr] is not evaluated. *)
Definition hasattr (a : dict) (field : string) : bool :=
  match dict_get a field with
  | Some _ => true
  | None => false
  end.

Definition setattr (a : dict) (field : string) (v : json) : dict :=
  dict_set a field v.

Definition is_none (v : json) : bool :=
  match v with
  | JNull => true
  | _ => false
  end.

(** [context or {}] for an optional mapping *)
Definition or_empty (c : option dict) : dict :=
  match c with
  | Some (kv :: d) => kv :: d
  | _ => []
  end.

Definition create_session (now : string) (session_id customer_email : string)
    (context : option dict) : M state SessionState :=
  await _ <- ensure_connected ;;
  let session :=
    mkSession session_id customer_email now now (or_empty context) 0 "active" in
  await _ <- setex (_session_key session_id) SESSION_TTL
               (model_dump_json session) ;;
  ret session.

Definition get_session (session_id : string) : M state (option SessionState) :=
  await _ <- ensure_connected ;;
  await data <- get (_session_key session_id) ;;
  if falsy data then ret None
  else ret (model_validate_json (default "" data)).

(** The loop over the keyword arguments of [update_session]. *)
Definition apply_updates (a : dict) (updates : list (string * json)) : dict :=
  fold_left
    (fun acc fv =>
       let (field, v) := fv : string * json in
       if negb (is_none v) && hasattr acc field then setattr acc field v
       else acc)
    updates a.

(** The body of [update_session], with [updates] the mapping that the call
    bound to [**updates]; [call_update_session] below is the call. *)
Definition update_session (utcnow : string) (session_id : string)
    (updates : list (string * json)) : M state bool :=
  await _ <- ensure_connected ;;
  await session <- get_session session_id ;;
  match session with
  | None => ret false
  | Some s =>
      let a := apply_updates (attrs_of s) updates in
      let a := setattr a "last_activity" (JStr utcnow) in
      await _ <- setex (_session_key session_id) SESSION_TTL (dump_attrs a) ;;
      ret true
  end.

Definition increment_message_count (utcnow : string) (session_id : string) :
    M state Z :=
  await _ <- ensure_connected ;;
  await session <- get_session session_id ;;
  match session with
  | None => ret 0
  | Some s =>
      let s' :=
        mkSession (RedisClient.session_id s) (customer_email s) (created_at s)
          utcnow (context s) (message_count s + 1) (status s) in
      await _ <- setex (_session_key session_id) SESSION_TTL
                   (model_dump_json s') ;;
      ret (message_count s')
  end.

Definition delete_session (session_id : string) : M state bool :=
  await _ <- ensure_connected ;;
  await result <- delete (_session_key session_id) ;;
  ret (negb (result =? 0)%Z).

Definition set_context (customer_email : string) (context : dict)
    (ttl : option Z) : M state unit :=
  await _ <- ensure_connected ;;
  let data := dumps (JObj context) in
  setex (_context_key customer_email) (ttl_or ttl CONTEXT_TTL) data.

Definition get_context (customer_email : string) : M state (option json) :=
  await _ <- ensure_connected ;;
  await data <- get (_context_key customer_email) ;;
  if falsy data then ret None
  else match loads (default "" data) with
       | Some j => ret (to_optional j)
       | None => raise JSONDecodeError
       end.

(** [existing or {}] *)
Definition or_empty_dict (existing : option json) : json :=
  match existing with
  | Some j => if truthy j then j else JObj []
  | None => JObj []
  end.

Definition update_context (customer_email : string) (updates : dict) :
    M state unit :=
  await _ <- ensure_connected ;;
  await existing <- get_context customer_email ;;
  match or_empty_dict existing with
  | JObj d => set_context customer_email (dict_update d updates) None
  | _ => raise AttributeError
  end.

Definition delete_context (customer_email : string) : M state bool :=
  await _ <- ensure_connected ;;
  await result <- delete (_context_key customer_email) ;;
  ret (negb (result =? 0)%Z).

(* --------------------------------------------------------------------- *)
(** ** Temporary data, counters and bulk operations *)

Definition _temp_key (key : string) : string := TEMP_PREFIX +:+ key.

Definition _counter_key (key : string) : string := COUNTER_PREFIX +:+ key.

(** [str(data)] for a value that is neither a dict nor a list. *)
Definition py_str (data : json) : string :=
  match data with
  | JNull => "None"
  | JBool true => "True"
  | JBool false => "False"
  | JInt z => ll2string z
  | JStr t => t
  | JArr _ | JObj _ => dumps data
  end.

Definition set_temp_data (key : string) (data : json) (ttl : option Z) :
    M state unit :=
  await _ <- ensure_connected ;;
  let value :=
    match data with
    | JArr _ | JObj _ => dumps data
    | _ => py_str data
    end in
  setex (_temp_key key) (ttl_or ttl TEMP_TTL) value.

Definition get_temp_data (key : string) : M state (option string) :=
  await _ <- ensure_connected ;;
  get (_temp_key key).

Definition delete_temp_data (key : string) : M state bool :=
  await _ <- ensure_connected ;;
  await result <- delete (_temp_key key) ;;
  ret (negb (result =? 0)%Z).

Definition increment_counter (key : string) (amount : Z) : M state Z :=
  await _ <- ensure_connected ;;
  incrby (_counter_key key) amount.

Definition reset_counter (key : string) : M state unit :=
  await _ <- ensure_connected ;;
  set (_counter_key key) "0".




(** The parameters of [update_session] itself.  A keyword argument with
    one of these names never reaches [**updates]. *)
Definition own_parameter (name : string) : bool :=
  String.eqb name "self" || String.eqb name "session_id".

(** The call [update_session(session_id, **kwargs)].  Python binds the
    arguments before the body runs: a keyword that names a parameter which
    has its value already is a [TypeError].  [update_session] above is the
    body, with [updates] the mapping bound to [**updates]. *)
Definition call_update_session (utcnow session_id : string)
    (kwargs : list (string * json)) : M state bool :=
  if existsb (fun kv => own_parameter (fst kv)) kwargs then raise TypeError
  else update_session utcnow session_id kwargs.



(** The session that one key holds, read as the loop below reads it. *)
Definition session_under (key : string) (d : gmap string entry) :
    option SessionState :=
  let data := value <$> d !! key in
  if falsy data then None else model_validate_json (default "" data).

(** What the loop below keeps of one key: its session, if it is one of
    the customer's. *)
Definition pick_for (email : string) (d : gmap string entry) (key : string) :
    option SessionState :=
  match session_under key d with
  | Some s => if String.eqb (customer_email s) email then Some s else None
  | None => None
  end.

(** The loop of [get_sessions_by_customer] over the keys still to visit. *)
Fixpoint collect_sessions (customer_email : string) (keys : list string)
    (sessions : list SessionState) : M state (list SessionState) :=
  match keys with
  | [] => ret sessions
  | key :: keys' =>
      await data <- get key ;;
      if falsy data then collect_sessions customer_email keys' sessions
      else
        match model_validate_json (default "" data) with
        | Some session =>
            if String.eqb (RedisClient.customer_email session) customer_email
            then collect_sessions customer_email keys' (sessions ++ [session])
            else collect_sessions customer_email keys' sessions
        | None => collect_sessions customer_email keys' sessions
        end
  end.

Definition get_sessions_by_customer (customer_email : string) :
    M state (list SessionState) :=
  await _ <- ensure_connected ;;
  await keys <- scan_iter SESSION_PREFIX ;;
  collect_sessions customer_email keys [].

(** The three counts that [cleanup_expired_data] reports. *)
Record Census : Type := mkCensus {
  sessions_active : Z;
  contexts_active : Z;
  temp_data_active : Z
}.

Definition cleanup_expired_data : M state Census :=
  await _ <- ensure_connected ;;
  await sessions <- scan_iter SESSION_PREFIX ;;
  await contexts <- scan_iter CONTEXT_PREFIX ;;
  await temps <- scan_iter TEMP_PREFIX ;;
  ret (mkCensus (Z.of_nat (length sessions)) (Z.of_nat (length contexts))
         (Z.of_nat (length temps))).

(** ** Observations used to state the contracts *)

(** The session that a keyspace holds under an id, read as [get_session]
    reads it. *)
Definition stored_session (session_id : string) (d : gmap string entry) :
    option SessionState :=
  let data := value <$> d !! _session_key session_id in
  if falsy data then None else model_validate_json (default "" data).

(** [a < b] on the ISO-8601 texts that [isoformat()] produces: texts of one
    clock order as the instants they denote. *)
Definition later (b a : string) : bool := String.ltb a b.

(** [create_session(id, email)], three [increment_message_count(id)], then
    [get_session(id).message_count]. *)
Definition three_increments (now t1 t2 t3 : string) (id email : string) :
    M state (Z * Z * Z * option Z) :=
  await _ <- create_session now id email None ;;
  await a <- increment_message_count t1 id ;;
  await b <- increment_message_count t2 id ;;
  await c <- increment_message_count t3 id ;;
  await s <- get_session id ;;
  ret (a, b, c, message_count <$> s).

(** [update_session(id, **updates)] then [get_session(id)]. *)
Definition update_then_get (utcnow : string) (id : string)
    (updates : list (string * json)) : M state (bool * option SessionState) :=
  await ok <- update_session utcnow id updates ;;
  await s <- get_session id ;;
  ret (ok, s).

(** [update_session(id, **kwargs)] as a call, then [get_session(id)]. *)
Definition call_update_then_get (utcnow : string) (id : string)
    (kwargs : list (string * json)) : M state (bool * option SessionState) :=
  await ok <- call_update_session utcnow id kwargs ;;
  await s <- get_session id ;;
  ret (ok, s).

(** [set_context(email, a)], [update_context(email, b)], [get_context(email)]. *)
Definition set_update_get (email : string) (a b : dict) :
    M state (option json) :=
  await _ <- set_context email a None ;;
  await _ <- update_context email b ;;
  get_context email.

End RedisClient.

(* ===================================================================== *)
(** * storage/redis_client_simple.py *)
(* ===================================================================== *)

Module SimplifiedRedisClient.

Import Redis.

Definition CONTEXT_PREFIX : string := "context:".
Definition CONTEXT_TTL : Z := 3600 * 2.

Definition _context_key (customer_email : string) : string :=
  CONTEXT_PREFIX +:+ customer_email.

Definition cache_customer_context (customer_email : string)
    (context_data : dict) (ttl : option Z) : M state unit :=
  await _ <- ensure_connected ;;
  let data := dumps (JObj context_data) in
  setex (_context_key customer_email) (ttl_or ttl CONTEXT_TTL) data.

Definition get_customer_context (customer_email : string) :
    M state (option json) :=
  await _ <- ensure_connected ;;
  await raw <- get (_context_key customer_email) ;;
  match raw with
  | None => ret None
  | Some t =>
      try_except
        (match loads t with
         | Some j => ret (to_optional j)
         | None => raise JSONDecodeError
         end)
        (await _ <- delete (_context_key customer_email) ;;
         ret None)
  end.

Definition update_customer_context (customer_email : string) (updates : dict) :
    M state bool :=
  await _ <- ensure_connected ;;
  await existing <- get_customer_context customer_email ;;
  match existing with
  | None => ret false
  | Some (JObj d) =>
      await _ <- cache_customer_context customer_email
                   (dict_update d updates) None ;;
      ret true
  | Some _ => raise AttributeError
  end.

Definition invalidate_customer_context (customer_email : string) :
    M state bool :=
  await _ <- ensure_connected ;;
  await result <- delete (_context_key customer_email) ;;
  ret (negb (result =? 0)%Z).

End SimplifiedRedisClient.

(* ===================================================================== *)
(** * storage/sqlite_client.py *)
(* ===================================================================== *)

Module SQLiteClient.

(** A row of [conversations]; every column but the key is nullable TEXT. *)
Record ConversationRow : Type := mkConversation {
  session_id : string;
  status : option string;
  issue_type : option string;
  sentiment : option string;
  created_at : option string;
  updated_at : option string
}.

(** A row of [messages]; [id] is the AUTOINCREMENT key. *)
Record MessageRow : Type := mkMessage {
  id : Z;
  m_session_id : option string;
  message_id : option string;
  customer_email : option string;
  message_type : option string;
  content : option string;
  metadata : option string;
  m_created_at : option string
}.

(** The connection handle and the two tables, with the engine's record of
    the largest [id] it has handed out for [messages]. *)
Record state : Type := State {
  conn : bool;
  conversations : list ConversationRow;
  messages : list MessageRow;
  sqlite_sequence : Z
}.

(** [connect]: open the file and create the tables that are missing; the
    tables of the modelled database exist from the start. *)
Definition connect : M state unit :=
  modify (fun st =>
            State true (conversations st) (messages st) (sqlite_sequence st)).

Definition _ensure_connected : M state unit :=
  await c <- gets conn ;;
  if c then ret tt else connect.

Definition same_key (a b : ConversationRow) : bool :=
  String.eqb (session_id a) (session_id b).

(** [DO UPDATE SET status=excluded.status, issue_type=excluded.issue_type,
    sentiment=excluded.sentiment, updated_at=excluded.updated_at] *)
Definition do_update (old excluded : ConversationRow) : ConversationRow :=
  mkConversation (session_id old) (status excluded) (issue_type excluded)
    (sentiment excluded) (created_at old) (updated_at excluded).

(** [INSERT INTO conversations ... ON CONFLICT(session_id) DO UPDATE ...] *)
Definition upsert (new : ConversationRow) (tbl : list ConversationRow) :
    list ConversationRow :=
  if existsb (same_key new) tbl
  then map (fun r => if same_key new r then do_update r new else r) tbl
  else tbl ++ [new].

(** The next AUTOINCREMENT key: one more than the largest ever used. *)
Definition next_id (st : state) : Z :=
  1 + fold_right Z.max (sqlite_sequence st) (map id (messages st)).

(** [metadata or {}] *)
Definition or_empty (metadata : option dict) : dict :=
  match metadata with
  | Some (kv :: d) => kv :: d
  | _ => []
  end.

(** The largest key an AUTOINCREMENT column can hand out. *)
Definition MAX_ROWID : Z := 2 ^ 63 - 1.

(** The table can take one more row: the next key exists. *)
Definition has_room (st : state) : Prop := (next_id st <= MAX_ROWID)%Z.

(** Once the largest key has been used the engine refuses the INSERT
    (SQLITE_FULL), which reaches the caller as [OperationalError]; nothing
    is inserted. *)
Definition add_message (utcnow : string)
    (session_id message_id customer_email message_type content : string)
    (metadata : option dict) : M state unit :=
  await _ <- _ensure_connected ;;
  let created_at := utcnow in
  let metadata_json := dumps (JObj (or_empty metadata)) in
  await full <- gets (fun st => (MAX_ROWID <? next_id st)%Z) ;;
  if full then raise OperationalError else
  modify (fun st =>
    let rowid := next_id st in
    State (conn st) (conversations st)
      (messages st ++
       [mkMessage rowid (Some session_id) (Some message_id)
          (Some customer_email) (Some message_type) (Some content)
          (Some metadata_json) (Some created_at)])
      rowid).

Definition update_conversation (utcnow : string) (session_id : string)
    (status : string) (issue_type sentiment : option string) : M state unit :=
  await _ <- _ensure_connected ;;
  let now := utcnow in
  modify (fun st =>
    State (conn st)
      (upsert
         (mkConversation session_id (Some status) issue_type sentiment
            (Some now) (Some now))
         (conversations st))
      (messages st) (sqlite_sequence st)).

(** The rows of [conversations] for one session id. *)
Definition rows_for (session_id : string) (st : state) : list ConversationRow :=
  filter (fun r => SQLiteClient.session_id r = session_id) (conversations st).

(** The PRIMARY KEY constraint the engine maintains. *)
Definition pk_unique (st : state) : Prop :=
  NoDup (map SQLiteClient.session_id (conversations st)).

End SQLiteClient.

(* ===================================================================== *)
(** * The codec reads back what it writes *)
(* ===================================================================== *)

Section JsonInduction.

Variable P : json -> Prop.
Hypothesis HNull : P JNull.
Hypothesis HBool : forall b, P (JBool b).
Hypothesis HInt : forall z, P (JInt z).
Hypothesis HStr : forall s, P (JStr s).
Hypothesis HArr : forall l, Forall P l -> P (JArr l).
Hypothesis HObj : forall d, Forall (fun kv => P (snd kv)) d -> P (JObj d).

Lemma json_ind : forall j, P j.
Proof.
  fix IH 1. intros [ | b | z | s | l | d ].
  - exact HNull.
  - apply HBool.
  - apply HInt.
  - apply HStr.
  - apply HArr.
    exact ((fix go (l : list json) : Forall P l :=
              match l with
              | [] => List.Forall_nil P
              | x :: l' => @List.Forall_cons _ P x l' (IH x) (go l')
              end) l).
  - apply HObj.
    exact ((fix go (d : list (string * json)) :
              Forall (fun kv => P (snd kv)) d :=
              match d with
              | [] => List.Forall_nil _
              | kv :: d' => @List.Forall_cons _ _ kv d' (IH (snd kv)) (go d')
              end) d).
Qed.

End JsonInduction.

Lemma wf_arr l : wf (JArr l) <-> Forall wf l.
Proof.
  simpl. induction l as [|x l IH].
  - split; [constructor | exact (fun _ => I)].
  - rewrite Forall_cons_iff, <- IH. reflexivity.
Qed.

Lemma wf_obj d :
  wf (JObj d) <-> NoDup (map fst d) /\ Forall (fun kv => wf (snd kv)) d.
Proof.
  simpl. apply and_iff_compat_l. induction d as [|kv d IH].
  - split; [constructor | exact (fun _ => I)].
  - rewrite Forall_cons_iff, <- IH. reflexivity.
Qed.

(** ** Text literals *)

Lemma parse_string_escape c r :
  parse_string (escape_char c ++ r) = cons_fst c (parse_string r).
Proof. destruct c as [[] [] [] [] [] [] [] []]; reflexivity. Qed.

Lemma parse_string_body cs rest :
  parse_string (flat_map escape_char cs ++ dquote :: rest) = Some (cs, rest).
Proof.
  induction cs as [|c cs IH].
  - reflexivity.
  - cbn [flat_map]. rewrite <- app_assoc, parse_string_escape, IH.
    reflexivity.
Qed.

Lemma parse_string_quote k rest :
  exists body,
    quote k ++ rest = dquote :: body /\
    parse_string body = Some (list_ascii_of_string k, rest).
Proof.
  exists (flat_map escape_char (list_ascii_of_string k) ++ dquote :: rest).
  split.
  - unfold quote. cbn [app]. f_equal. rewrite <- app_assoc. reflexivity.
  - apply parse_string_body.
Qed.

(** ** Integers *)

Lemma parse_uint_print u rest :
  no_digit_head rest -> parse_uint (print_uint u ++ rest) = (u, rest).
Proof.
  intros Hrest.
  induction u as [|u IH|u IH|u IH|u IH|u IH|u IH|u IH|u IH|u IH|u IH];
    cbn [print_uint app];
    [| cbn [parse_uint digit_of]; rewrite IH; reflexivity ..].
  destruct rest as [|c r]; [reflexivity|].
  cbn in Hrest. cbn [parse_uint]. rewrite Hrest. reflexivity.
Qed.

Lemma canonical_unorm u : canonical (unorm u) = true.
Proof.
  unfold unorm. destruct (nzhead u) as [|v|v|v|v|v|v|v|v|v|v] eqn:E;
    try reflexivity.
  destruct (nzhead_nonzero _ _ E).
Qed.

Lemma canonical_to_uint p : canonical (Pos.to_uint p) = true.
Proof.
  assert (H : unorm (Pos.to_uint p) = Pos.to_uint p).
  { rewrite <- DecimalPos.Unsigned.to_of, DecimalPos.Unsigned.of_to.
    reflexivity. }
  rewrite <- H. apply canonical_unorm.
Qed.

Lemma canonical_to_int z :
  match Z.to_int z with
  | Decimal.Pos u | Decimal.Neg u => canonical u = true
  end.
Proof.
  destruct z as [|p|p]; cbn [Z.to_int].
  - reflexivity.
  - apply canonical_to_uint.
  - apply canonical_to_uint.
Qed.

Lemma print_uint_head u :
  canonical u = true ->
  exists c r, print_uint u = c :: r /\ digit_of c <> None.
Proof.
  destruct u; cbn [print_uint]; intros H;
    [discriminate H | eexists _, _; split; [reflexivity | discriminate] ..].
Qed.

Lemma print_int_head z :
  exists c r, print_int z = c :: r /\ int_head c = true.
Proof.
  unfold print_int. pose proof (canonical_to_int z) as H.
  destruct (Z.to_int z) as [u|u].
  - destruct (print_uint_head u H) as (c & r & -> & Hd).
    exists c, r. split; [reflexivity|]. unfold int_head.
    destruct (digit_of c); [apply orb_true_r | congruence].
  - eexists _, _. split; reflexivity.
Qed.

Lemma parse_int_digit c r :
  digit_of c <> None ->
  parse_int (c :: r) =
    let (u, r') := parse_uint (c :: r) in
    if canonical u then Some (Z.of_int (Decimal.Pos u), r') else None.
Proof.
  destruct c as [[] [] [] [] [] [] [] []]; intros H;
    solve [reflexivity | destruct H; reflexivity].
Qed.

Lemma parse_int_print z rest :
  no_digit_head rest -> parse_int (print_int z ++ rest) = Some (z, rest).
Proof.
  intros Hrest. unfold print_int.
  pose proof (canonical_to_int z) as Hc.
  pose proof (DecimalZ.of_to z) as Hz.
  destruct (Z.to_int z) as [u|u].
  - destruct (print_uint_head u Hc) as (c & r & E & Hd).
    pose proof (parse_uint_print u rest Hrest) as Hp.
    rewrite E in *. cbn [app] in *.
    rewrite parse_int_digit by exact Hd.
    rewrite Hp, Hc, Hz. reflexivity.
  - cbn [app parse_int]. rewrite parse_uint_print by exact Hrest.
    rewrite Hc, Hz. reflexivity.
Qed.

(** ** Values *)

Lemma int_head_solid c :
  int_head c = true -> solid c /\ Ascii.eqb c dquote = false.
Proof.
  destruct c as [[] [] [] [] [] [] [] []]; intros H;
    solve [discriminate H | repeat split].
Qed.

Lemma parse_value_int n c r :
  int_head c = true ->
  parse_value (S n) (c :: r) =
    match parse_int (c :: r) with
    | Some (z, r') => Some (JInt z, r')
    | None => None
    end.
Proof.
  destruct c as [[] [] [] [] [] [] [] []]; intros H;
    solve [discriminate H | reflexivity].
Qed.

Lemma skip_ws_solid c r : solid c -> skip_ws (c :: r) = c :: r.
Proof. intros (H & _). cbn [skip_ws]. rewrite H. reflexivity. Qed.

Lemma print_nonempty sp j : (1 <= length (print sp j))%nat.
Proof.
  destruct j as [|[]|z|s|l|d]; cbn; try lia.
  destruct (print_int_head z) as (c & r & -> & _). cbn. lia.
Qed.

Lemma print_head sp j rest :
  exists c r, print sp j ++ rest = c :: r /\ solid c.
Proof.
  destruct j as [|[]|z|s|l|d];
    try (eexists _, _; split; [reflexivity | repeat split]).
  destruct (print_int_head z) as (c & r & E & H).
  exists c, (r ++ rest). split.
  - cbn [print]. rewrite E. reflexivity.
  - apply int_head_solid, H.
Qed.

(** ** Objects keep their members when no key repeats *)

Lemma dict_set_fresh d k v :
  k ∉ map fst d -> dict_set d k v = d ++ [(k, v)].
Proof.
  induction d as [|[k' v'] d IH]; intros Hk; [reflexivity|].
  cbn [dict_set app]. cbn [map fst] in Hk.
  apply not_elem_of_cons in Hk as [Hne Hk].
  destruct (String.eqb_spec k k') as [->|_]; [congruence|].
  rewrite IH by exact Hk. reflexivity.
Qed.

Lemma dict_update_fresh acc d :
  NoDup (map fst (acc ++ d)) -> dict_update acc d = acc ++ d.
Proof.
  revert acc. induction d as [|[k v] d IH]; intros acc Hnd.
  - cbn. rewrite app_nil_r. reflexivity.
  - unfold dict_update in *. cbn [fold_left fst snd].
    assert (E : acc ++ (k, v) :: d = (acc ++ [(k, v)]) ++ d)
      by (rewrite <- app_assoc; reflexivity).
    rewrite dict_set_fresh.
    + rewrite IH; [symmetry; exact E|]. rewrite <- E. exact Hnd.
    + rewrite map_app in Hnd. cbn [map fst] in Hnd.
      apply NoDup_app in Hnd as (_ & Hdisj & _).
      intros Hin. apply (Hdisj k Hin). left.
Qed.

Lemma dict_of_pairs_nodup d : NoDup (map fst d) -> dict_of_pairs d = d.
Proof. intros H. apply (dict_update_fresh [] d H). Qed.

(** ** One step of the decoder *)

Lemma print_items_single {A} (pr : A -> list ascii) sp close x :
  print_items pr sp close [x] = pr x ++ [close].
Proof. reflexivity. Qed.

Lemma print_items_cons {A} (pr : A -> list ascii) sp close x y l :
  print_items pr sp close (x :: y :: l) =
    pr x ++ ","%char :: sp ++ print_items pr sp close (y :: l).
Proof. reflexivity. Qed.

Lemma parse_elems_close n s v r :
  parse_value n s = Some (v, "]"%char :: r) ->
  parse_elems (S n) s = Some ([v], r).
Proof. intros H. cbn [parse_elems]. rewrite H. reflexivity. Qed.

Lemma parse_elems_comma n s v r :
  parse_value n s = Some (v, ","%char :: r) ->
  parse_elems (S n) s =
    match parse_elems n (skip_ws r) with
    | Some (l, r') => Some (v :: l, r')
    | None => None
    end.
Proof. intros H. cbn [parse_elems]. rewrite H. reflexivity. Qed.

Lemma parse_members_close n body k r2 v r :
  parse_string body = Some (k, ":"%char :: r2) ->
  parse_value n (skip_ws r2) = Some (v, "}"%char :: r) ->
  parse_members (S n) (dquote :: body) =
    Some ([(string_of_list_ascii k, v)], r).
Proof.
  intros Hk Hv. cbn [parse_members].
  replace (Ascii.eqb dquote dquote) with true by reflexivity.
  rewrite Hk. replace (skip_ws (":"%char :: r2)) with (":"%char :: r2)
    by reflexivity.
  rewrite Hv. reflexivity.
Qed.

Lemma parse_members_comma n body k r2 v r :
  parse_string body = Some (k, ":"%char :: r2) ->
  parse_value n (skip_ws r2) = Some (v, ","%char :: r) ->
  parse_members (S n) (dquote :: body) =
    match parse_members n (skip_ws r) with
    | Some (l, r') => Some ((string_of_list_ascii k, v) :: l, r')
    | None => None
    end.
Proof.
  intros Hk Hv. cbn [parse_members].
  replace (Ascii.eqb dquote dquote) with true by reflexivity.
  rewrite Hk. replace (skip_ws (":"%char :: r2)) with (":"%char :: r2)
    by reflexivity.
  rewrite Hv. reflexivity.
Qed.

Lemma parse_value_arr_empty n r :
  parse_value (S n) ("["%char :: "]"%char :: r) = Some (JArr [], r).
Proof. reflexivity. Qed.

Lemma parse_value_arr n c r :
  solid c ->
  parse_value (S n) ("["%char :: c :: r) =
    match parse_elems n (c :: r) with
    | Some (l, r') => Some (JArr l, r')
    | None => None
    end.
Proof.
  intros (Hws & Hb & _).
  change (parse_value (S n) ("["%char :: c :: r)) with
    (match skip_ws (c :: r) with
     | [] => None
     | c0 :: r0 =>
         if Ascii.eqb c0 "]" then Some (JArr [], r0)
         else match parse_elems n (c0 :: r0) with
              | Some (l, r') => Some (JArr l, r')
              | None => None
              end
     end).
  cbn [skip_ws]. rewrite Hws, Hb. reflexivity.
Qed.

Lemma parse_value_obj_empty n r :
  parse_value (S n) ("{"%char :: "}"%char :: r) = Some (JObj [], r).
Proof. reflexivity. Qed.

Lemma parse_value_obj n c r :
  solid c ->
  parse_value (S n) ("{"%char :: c :: r) =
    match parse_members n (c :: r) with
    | Some (l, r') => Some (JObj (dict_of_pairs l), r')
    | None => None
    end.
Proof.
  intros (Hws & _ & Hb).
  change (parse_value (S n) ("{"%char :: c :: r)) with
    (match skip_ws (c :: r) with
     | [] => None
     | c0 :: r0 =>
         if Ascii.eqb c0 "}" then Some (JObj [], r0)
         else match parse_members n (c0 :: r0) with
              | Some (l, r') => Some (JObj (dict_of_pairs l), r')
              | None => None
              end
     end).
  cbn [skip_ws]. rewrite Hws, Hb. reflexivity.
Qed.

Lemma parse_value_str n body cs r :
  parse_string body = Some (cs, r) ->
  parse_value (S n) (dquote :: body) = Some (JStr (string_of_list_ascii cs), r).
Proof.
  intros H. cbn [parse_value].
  replace (Ascii.eqb dquote dquote) with true by reflexivity.
  rewrite H. reflexivity.
Qed.

Section Roundtrip.

Variable sp : list ascii.
Hypothesis sp_ws : forall s, skip_ws (sp ++ s) = skip_ws s.

Lemma items_head {A} (pr : A -> list ascii) close l rest :
  (forall x s, exists c r, pr x ++ s = c :: r /\ solid c) ->
  l <> [] ->
  exists c r, print_items pr sp close l ++ rest = c :: r /\ solid c.
Proof.
  intros Hpr Hl. destruct l as [|x l]; [congruence|]. cbn [print_items].
  rewrite <- app_assoc. apply Hpr.
Qed.

Lemma skip_ws_items {A} (pr : A -> list ascii) close l rest :
  (forall x s, exists c r, pr x ++ s = c :: r /\ solid c) ->
  l <> [] ->
  skip_ws (sp ++ print_items pr sp close l ++ rest) =
    print_items pr sp close l ++ rest.
Proof.
  intros Hpr Hl. rewrite sp_ws.
  destruct (items_head pr close l rest Hpr Hl) as (c & r & -> & Hc).
  apply skip_ws_solid, Hc.
Qed.

Lemma member_head pr kv s :
  exists c r, print_member pr sp kv ++ s = c :: r /\ solid c.
Proof.
  destruct kv as [k v]. eexists _, _. split; [reflexivity|].
  repeat split.
Qed.

Lemma reads_back_elems l :
  l <> [] ->
  Forall (fun x => wf x -> reads_back sp x) l ->
  Forall wf l ->
  forall n rest,
    (length (print_items (print sp) sp "]" l) <= n)%nat ->
    parse_elems n (print_items (print sp) sp "]" l ++ rest) = Some (l, rest).
Proof.
  induction l as [|x l IH]; [congruence|]. intros _ HP Hwf n rest Hlen.
  inversion_clear HP as [|? ? Hx HPl].
  inversion_clear Hwf as [|? ? Hwx Hwl].
  pose proof (print_nonempty sp x) as Hne.
  destruct l as [|y l'].
  - rewrite print_items_single in *. rewrite length_app in Hlen.
    cbn [length] in Hlen. destruct n as [|n]; [lia|].
    rewrite <- app_assoc.
    apply parse_elems_close, (Hx Hwx); [reflexivity | lia].
  - rewrite print_items_cons in *. rewrite length_app in Hlen.
    cbn [length] in Hlen. rewrite length_app in Hlen.
    destruct n as [|n]; [lia|].
    rewrite <- app_assoc. cbn [app]. rewrite <- app_assoc.
    erewrite parse_elems_comma; [| apply (Hx Hwx); [reflexivity | lia]].
    rewrite skip_ws_items; [| apply print_head | congruence].
    rewrite IH; [reflexivity | congruence | exact HPl | exact Hwl | lia].
Qed.

Lemma reads_back_members d :
  d <> [] ->
  Forall (fun kv => wf (snd kv) -> reads_back sp (snd kv)) d ->
  Forall (fun kv => wf (snd kv)) d ->
  forall n rest,
    (length (print_items (print_member (print sp) sp) sp "}" d) <= n)%nat ->
    parse_members n
      (print_items (print_member (print sp) sp) sp "}" d ++ rest) =
      Some (d, rest).
Proof.
  induction d as [|[k v] d IH]; [congruence|]. intros _ HP Hwf n rest Hlen.
  inversion_clear HP as [|? ? Hv HPd].
  inversion_clear Hwf as [|? ? Hwv Hwd].
  cbn [snd] in Hv, Hwv.
  pose proof (print_nonempty sp v) as Hne.
  destruct d as [|kv d'].
  - rewrite print_items_single in *. unfold print_member in *.
    repeat rewrite ?length_app, ?length_cons in Hlen.
    destruct n as [|n]; [unfold quote in Hlen; cbn [length] in Hlen; lia|].
    repeat (rewrite <- ?app_assoc; cbn [app]).
    destruct (parse_string_quote k
                (":"%char :: sp ++ print sp v ++ "}"%char :: rest))
      as (body & -> & Hb).
    erewrite parse_members_close; [| exact Hb |]; cycle 1.
    { rewrite sp_ws.
      destruct (print_head sp v ("}"%char :: rest)) as (c & r & E & Hc).
      rewrite E, (skip_ws_solid c r Hc), <- E.
      apply (Hv Hwv); [reflexivity | lia]. }
    rewrite string_of_list_ascii_of_string. reflexivity.
  - rewrite print_items_cons in *. unfold print_member at 1.
    unfold print_member at 1 in Hlen.
    repeat rewrite ?length_app, ?length_cons in Hlen.
    destruct n as [|n]; [unfold quote in Hlen; cbn [length] in Hlen; lia|].
    repeat (rewrite <- ?app_assoc; cbn [app]).
    destruct (parse_string_quote k
                (":"%char :: sp ++ print sp v ++ ","%char :: sp ++
                 print_items (print_member (print sp) sp) sp "}" (kv :: d')
                 ++ rest))
      as (body & -> & Hb).
    erewrite parse_members_comma; [| exact Hb |]; cycle 1.
    { rewrite sp_ws.
      destruct (print_head sp v
                  (","%char :: sp ++
                   print_items (print_member (print sp) sp) sp "}" (kv :: d')
                   ++ rest)) as (c & r & E & Hc).
      rewrite E, (skip_ws_solid c r Hc), <- E.
      apply (Hv Hwv); [reflexivity | lia]. }
    rewrite (skip_ws_items (print_member (print sp) sp));
      [| intros; apply member_head | congruence].
    rewrite IH; [| congruence | exact HPd | exact Hwd | lia].
    rewrite string_of_list_ascii_of_string. reflexivity.
Qed.

Lemma reads_back_wf j : wf j -> reads_back sp j.
Proof.
  induction j as [|b|z|s|l IH|d IH] using json_ind;
    intros Hwf n rest Hrest Hlen;
    (destruct n as [|n]; [pose proof (print_nonempty sp) as Hne |]).
  - specialize (Hne JNull). lia.
  - reflexivity.
  - specialize (Hne (JBool b)). lia.
  - destruct b; reflexivity.
  - specialize (Hne (JInt z)). lia.
  - cbn [print].
    destruct (print_int_head z) as (c & r & E & H).
    assert (E' : print_int z ++ rest = c :: (r ++ rest))
      by (rewrite E; reflexivity).
    rewrite E', parse_value_int by exact H.
    rewrite <- E', parse_int_print by exact Hrest. reflexivity.
  - specialize (Hne (JStr s)). lia.
  - cbn [print].
    destruct (parse_string_quote s rest) as (body & -> & Hb).
    erewrite parse_value_str by exact Hb.
    rewrite string_of_list_ascii_of_string. reflexivity.
  - specialize (Hne (JArr l)). lia.
  - apply wf_arr in Hwf. cbn [print length app] in *.
    destruct l as [|x l]; [apply parse_value_arr_empty|].
    destruct (items_head (print sp) "]" (x :: l) rest) as (c & r & E & Hc);
      [apply print_head | congruence |].
    rewrite E, parse_value_arr by exact Hc. rewrite <- E.
    rewrite reads_back_elems;
      [reflexivity | congruence | exact IH | exact Hwf | lia].
  - specialize (Hne (JObj d)). lia.
  - apply wf_obj in Hwf as [Hnd Hwf]. cbn [print length app] in *.
    destruct d as [|kv d]; [apply parse_value_obj_empty|].
    destruct (items_head (print_member (print sp) sp) "}" (kv :: d) rest)
      as (c & r & E & Hc); [intros; apply member_head | congruence |].
    rewrite E, parse_value_obj by exact Hc. rewrite <- E.
    rewrite reads_back_members; [| congruence | | exact Hwf | lia].
    + rewrite dict_of_pairs_nodup by exact Hnd. reflexivity.
    + eapply Forall_impl; [exact IH|]. intros kv' H. exact H.
Qed.

End Roundtrip.

Lemma loads_print sp j :
  (forall s, skip_ws (sp ++ s) = skip_ws s) ->
  wf j -> loads (string_of_list_ascii (print sp j)) = Some j.
Proof.
  intros Hsp Hwf. unfold loads.
  rewrite list_ascii_of_string_of_list_ascii.
  destruct (print_head sp j []) as (c & r & E & Hc).
  rewrite app_nil_r in E. rewrite E, (skip_ws_solid c r Hc), <- E.
  rewrite <- (app_nil_r (print sp j)) at 2.
  rewrite (reads_back_wf sp Hsp j Hwf); [reflexivity | exact I | lia].
Qed.

(** [json.loads(json.dumps(j)) == j] *)
Lemma loads_dumps j : wf j -> loads (dumps j) = Some j.
Proof. apply loads_print. reflexivity. Qed.

Lemma loads_dumps_compact j : wf j -> loads (dumps_compact j) = Some j.
Proof. apply loads_print. reflexivity. Qed.

(** ** What the decoder returns is well formed *)

Lemma dict_set_keys d k v x :
  x ∈ map fst (dict_set d k v) -> x = k \/ x ∈ map fst d.
Proof.
  induction d as [|[k' v'] d IH]; cbn [dict_set map fst].
  - intros H. apply list_elem_of_singleton in H. left. exact H.
  - destruct (String.eqb_spec k k') as [->|_]; cbn [map fst]; intros H.
    + right. exact H.
    + apply elem_of_cons in H as [->|H].
      * right. left.
      * destruct (IH H) as [->|H']; [left; reflexivity | right; right; exact H'].
Qed.

Lemma dict_set_nodup d k v :
  NoDup (map fst d) -> NoDup (map fst (dict_set d k v)).
Proof.
  induction d as [|[k' v'] d IH]; cbn [dict_set map fst]; intros Hnd.
  - apply NoDup_singleton.
  - apply NoDup_cons in Hnd as [Hk Hnd].
    destruct (String.eqb_spec k k') as [->|Hne]; cbn [map fst].
    + apply NoDup_cons. split; assumption.
    + apply NoDup_cons. split; [|apply IH, Hnd].
      intros H. apply dict_set_keys in H as [->|H]; [congruence | exact (Hk H)].
Qed.

Lemma dict_set_values (Q : json -> Prop) d k v :
  Q v -> Forall (fun kv => Q (snd kv)) d ->
  Forall (fun kv => Q (snd kv)) (dict_set d k v).
Proof.
  intros Hv. induction d as [|[k' v'] d IH]; cbn [dict_set]; intros Hd.
  - constructor; [exact Hv | constructor].
  - inversion_clear Hd as [|? ? Hv' Hd'].
    destruct (String.eqb k k'); constructor; auto.
Qed.

Lemma dict_update_wf acc u :
  wf (JObj acc) -> Forall (fun kv => wf (snd kv)) u ->
  wf (JObj (dict_update acc u)).
Proof.
  revert acc. unfold dict_update.
  induction u as [|[k v] u IH]; intros acc Hacc Hu; [exact Hacc|].
  inversion_clear Hu as [|? ? Hv Hu']. cbn [fold_left fst snd].
  apply IH; [|exact Hu'].
  apply wf_obj in Hacc as [Hnd Hvals]. apply wf_obj. split.
  - apply dict_set_nodup, Hnd.
  - apply dict_set_values; assumption.
Qed.

Lemma dict_of_pairs_wf l :
  Forall (fun kv => wf (snd kv)) l -> wf (JObj (dict_of_pairs l)).
Proof.
  apply dict_update_wf. apply wf_obj. split; constructor.
Qed.

Ltac break_parse H :=
  repeat match type of H with
         | context [match ?x with _ => _ end] =>
             destruct x eqn:?; try discriminate H
         end.

Lemma parse_wf n :
  (forall s j r, parse_value n s = Some (j, r) -> wf j) /\
  (forall s l r, parse_elems n s = Some (l, r) -> Forall wf l) /\
  (forall s l r,
      parse_members n s = Some (l, r) -> Forall (fun kv => wf (snd kv)) l).
Proof.
  induction n as [|n (IHv & IHe & IHm)]; [repeat split; discriminate|].
  split; [|split].
  - intros [|c s] j r H; [discriminate H|]. cbn [parse_value] in H.
    destruct (Ascii.eqb c dquote).
    + break_parse H. injection H as <- _. exact I.
    + destruct c as [[] [] [] [] [] [] [] []];
        break_parse H; injection H as <- _;
        first [ exact I
              | apply wf_arr; first [constructor | eapply IHe; eassumption]
              | apply dict_of_pairs_wf; eapply IHm; eassumption
              | apply wf_obj; split; constructor ].
  - intros s l r H. cbn [parse_elems] in H.
    destruct (parse_value n s) as [[v r0]|] eqn:Ev; [|discriminate H].
    apply IHv in Ev.
    break_parse H; injection H as <- _; constructor;
      first [exact Ev | constructor | eapply IHe; eassumption].
  - intros [|c s] l r H; [discriminate H|]. cbn [parse_members] in H.
    destruct (Ascii.eqb c dquote); [|discriminate H].
    destruct (parse_string s) as [[k r1]|]; [|discriminate H].
    destruct (skip_ws r1) as [|c1 r2]; [discriminate H|].
    destruct c1 as [[] [] [] [] [] [] [] []]; try discriminate H.
    destruct (parse_value n (skip_ws r2)) as [[v r3]|] eqn:Ev;
      [|discriminate H].
    apply IHv in Ev.
    break_parse H; injection H as <- _; constructor;
      first [exact Ev | constructor | eapply IHm; eassumption].
Qed.

(** ** Text that is surely not JSON is refused *)

Lemma parse_value_bad_start n c r :
  value_start c = false -> parse_value (S n) (c :: r) = None.
Proof.
  destruct c as [[] [] [] [] [] [] [] []]; intros H;
    solve [discriminate H | reflexivity].
Qed.

Lemma parse_value_bad_member n c r r' :
  skip_ws r = c :: r' ->
  Ascii.eqb c dquote = false -> Ascii.eqb c "}" = false ->
  parse_value (S n) ("{"%char :: r) = None.
Proof.
  intros Hr Hq Hb.
  change (parse_value (S n) ("{"%char :: r)) with
    (match skip_ws r with
     | [] => None
     | c0 :: r0 =>
         if Ascii.eqb c0 "}" then Some (JObj [], r0)
         else match parse_members n (c0 :: r0) with
              | Some (l, r1) => Some (JObj (dict_of_pairs l), r1)
              | None => None
              end
     end).
  rewrite Hr, Hb. destruct n as [|n]; [reflexivity|].
  cbn [parse_members]. rewrite Hq. reflexivity.
Qed.

Lemma surely_not_json_refused t : surely_not_json t = true -> loads t = None.
Proof.
  unfold surely_not_json, loads.
  destruct (skip_ws (list_ascii_of_string t)) as [|c r]; [reflexivity|].
  cbn [length]. destruct (value_start c) eqn:Hc; cbn [negb].
  - destruct (Ascii.eqb_spec c "{") as [->|_]; [|discriminate].
    destruct (skip_ws r) as [|c' r'] eqn:Hr.
    + intros _. change (parse_value (S (S (length r))) ("{"%char :: r))
        with (match skip_ws r with
              | [] => None
              | c0 :: r0 =>
                  if Ascii.eqb c0 "}" then Some (JObj [], r0)
                  else match parse_members (S (length r)) (c0 :: r0) with
                       | Some (l, r1) => Some (JObj (dict_of_pairs l), r1)
                       | None => None
                       end
              end : option (json * list ascii)).
      rewrite Hr. reflexivity.
    + intros H. apply negb_true_iff, orb_false_iff in H as [Hq Hb].
      rewrite (parse_value_bad_member _ c' r r' Hr Hq Hb). reflexivity.
  - intros _. rewrite parse_value_bad_start by exact Hc. reflexivity.
Qed.

Lemma loads_wf t j : loads t = Some j -> wf j.
Proof.
  unfold loads. intros H.
  destruct (parse_value _ _) as [[j' r]|] eqn:E; [|discriminate H].
  destruct (skip_ws r); [|discriminate H].
  injection H as <-. eapply parse_wf, E.
Qed.

(* ===================================================================== *)
(** * The session and context store *)
(* ===================================================================== *)

Module RedisClientFacts.

Import Redis RedisClient.

Lemma ensure_connected_run st :
  ensure_connected st = Returned tt (State true (db st)).
Proof. destruct st as [[] d]; reflexivity. Qed.

Lemma dumps_nonempty sp j :
  String.eqb (string_of_list_ascii (print sp j)) "" = false.
Proof.
  destruct (print_head sp j []) as (c & r & E & _).
  rewrite app_nil_r in E. rewrite E. reflexivity.
Qed.

Lemma dumps_not_empty j : String.eqb (dumps j) "" = false.
Proof. apply dumps_nonempty. Qed.

Lemma session_key_inj a b : _session_key a = _session_key b -> a = b.
Proof. apply String.app_inj. Qed.

(** ** The model reads back what it dumps *)

Lemma attrs_keys_nodup s : NoDup (map fst (attrs_of s)).
Proof. cbn. apply (bool_decide_unpack _). reflexivity. Qed.

Lemma attrs_wf s : wf (JObj (context s)) -> wf (JObj (attrs_of s)).
Proof.
  intros Hc. apply wf_obj. split; [apply attrs_keys_nodup|].
  unfold attrs_of.
  repeat (apply List.Forall_cons; [first [exact Hc | exact I] |]).
  apply List.Forall_nil.
Qed.

Lemma model_validate_attrs s : model_validate (JObj (attrs_of s)) = Some s.
Proof. destruct s. reflexivity. Qed.


Lemma dict_get_wf d k v :
  wf (JObj d) -> dict_get d k = Some v -> wf v.
Proof.
  intros Hd. apply wf_obj in Hd as [_ Hd].
  induction Hd as [|[k' v'] d Hv Hd IH]; cbn [dict_get]; [discriminate|].
  destruct (String.eqb k k'); [|exact IH].
  intros [= <-]. exact Hv.
Qed.

Lemma model_validate_wf j s :
  wf j -> model_validate j = Some s -> wf (JObj (context s)).
Proof.
  intros Hj H. destruct j as [| | | | |d]; try discriminate H.
  cbn [model_validate] in H.
  destruct (required_str d "session_id"); [|discriminate H].
  destruct (required_str d "customer_email"); [|discriminate H].
  destruct (required_str d "created_at"); [|discriminate H].
  destruct (required_str d "last_activity"); [|discriminate H].
  cbn [mbind option_bind] in H.
  destruct (dict_get d "context") as [c|] eqn:Ec.
  - pose proof (dict_get_wf d _ c Hj Ec) as Hc.
    destruct c; try discriminate H. cbn [mbind option_bind] in H.
    destruct (match dict_get d "message_count" with
              | Some (JInt n) => Some n
              | Some _ => None
              | None => Some 0%Z
              end); [|discriminate H].
    cbn [mbind option_bind] in H.
    destruct (match dict_get d "status" with
              | Some (JStr t) => Some t
              | Some _ => None
              | None => Some "active"
              end); [|discriminate H].
    injection H as <-. exact Hc.
  - cbn [mbind option_bind] in H.
    destruct (match dict_get d "message_count" with
              | Some (JInt n) => Some n
              | Some _ => None
              | None => Some 0%Z
              end); [|discriminate H].
    cbn [mbind option_bind] in H.
    destruct (match dict_get d "status" with
              | Some (JStr t) => Some t
              | Some _ => None
              | None => Some "active"
              end); [|discriminate H].
    injection H as <-. apply wf_obj. split; constructor.
Qed.

Lemma model_validate_json_wf t s :
  model_validate_json t = Some s -> wf (JObj (context s)).
Proof.
  unfold model_validate_json. intros H.
  destruct (loads t) as [j|] eqn:E; [|discriminate H].
  eapply model_validate_wf; [eapply loads_wf, E | exact H].
Qed.

Lemma stored_session_wf id d s :
  stored_session id d = Some s -> wf (JObj (context s)).
Proof.
  unfold stored_session. destruct (falsy _); [discriminate|].
  apply model_validate_json_wf.
Qed.

(** ** What each operation does to the keyspace *)

Lemma stored_session_insert id t ttl d :
  stored_session id (<[_session_key id := Entry t ttl]> d) =
    if String.eqb t "" then None else model_validate_json t.
Proof. unfold stored_session. rewrite lookup_insert_eq. reflexivity. Qed.

Lemma stored_session_attrs id a ttl d :
  wf (JObj a) ->
  stored_session id (<[_session_key id := Entry (dump_attrs a) ttl]> d) =
    model_validate (JObj a).
Proof.
  intros Ha. rewrite stored_session_insert.
  unfold dump_attrs, dumps_compact. rewrite dumps_nonempty.
  unfold model_validate_json.
  change (string_of_list_ascii (print [] (JObj a))) with (dumps_compact (JObj a)).
  rewrite loads_dumps_compact by exact Ha. reflexivity.
Qed.

Lemma stored_session_dump id s ttl d :
  wf (JObj (context s)) ->
  stored_session id (<[_session_key id := Entry (model_dump_json s) ttl]> d) =
    Some s.
Proof.
  intros Hc. unfold model_dump_json.
  rewrite stored_session_attrs by (apply attrs_wf, Hc).
  apply model_validate_attrs.
Qed.

Lemma get_session_run id st :
  get_session id st = Returned (stored_session id (db st)) (State true (db st)).
Proof.
  unfold get_session, bind. rewrite ensure_connected_run.
  unfold stored_session. cbn. destruct (falsy _); reflexivity.
Qed.

Lemma create_session_run now id email ctx st :
  let s := mkSession id email now now (or_empty ctx) 0 "active" in
  create_session now id email ctx st =
    Returned s
      (State true
         (<[_session_key id := Entry (model_dump_json s) (Some SESSION_TTL)]>
            (db st))).
Proof.
  intros s. unfold create_session, bind. rewrite ensure_connected_run.
  reflexivity.
Qed.

Lemma update_session_run utcnow id updates st :
  update_session utcnow id updates st =
    match stored_session id (db st) with
    | None => Returned false (State true (db st))
    | Some s =>
        let a := setattr (apply_updates (attrs_of s) updates)
                   "last_activity" (JStr utcnow) in
        Returned true
          (State true
             (<[_session_key id := Entry (dump_attrs a) (Some SESSION_TTL)]>
                (db st)))
    end.
Proof.
  unfold update_session, bind. rewrite ensure_connected_run, get_session_run.
  cbn [db]. destruct (stored_session id (db st)); reflexivity.
Qed.

Lemma increment_message_count_run utcnow id st :
  increment_message_count utcnow id st =
    match stored_session id (db st) with
    | None => Returned 0 (State true (db st))
    | Some s =>
        let s' :=
          mkSession (session_id s) (customer_email s) (created_at s) utcnow
            (context s) (message_count s + 1) (status s) in
        Returned (message_count s + 1)
          (State true
             (<[_session_key id := Entry (model_dump_json s') (Some SESSION_TTL)]>
                (db st)))
    end.
Proof.
  unfold increment_message_count, bind.
  rewrite ensure_connected_run, get_session_run.
  cbn [db]. destruct (stored_session id (db st)); reflexivity.
Qed.

Lemma wf_empty_dict : wf (JObj []).
Proof. apply wf_obj. split; constructor. Qed.

(** C4. [create_session(id, email)] followed by [get_session(id)] returns
    a session whose id and email are the ones given and whose
    [last_activity] equals its [created_at]. *)
Theorem C4_create_then_get now id email st :
  exists s st',
    (await _ <- create_session now id email None ;; get_session id) st =
      Returned (Some s) st' /\
    session_id s = id /\
    customer_email s = email /\
    last_activity s = created_at s.
Proof.
  eexists _, _. split.
  - unfold bind. rewrite create_session_run, get_session_run.
    cbn [db]. rewrite stored_session_dump by exact wf_empty_dict.
    reflexivity.
  - repeat split.
Qed.

(** C1, as the code has it.  On a session freshly created with
    [create_session(id, email)], three successive calls of
    [increment_message_count(id)] return 1, 2 and 3, and after them
    [get_session(id).message_count] is 3. *)
Theorem C1_increments_count_up now t1 t2 t3 id email st :
  exists st',
    three_increments now t1 t2 t3 id email st =
      Returned (1, 2, 3, Some 3) st'.
Proof.
  eexists. unfold three_increments, bind.
  rewrite create_session_run.
  do 3 (rewrite increment_message_count_run; cbn [db];
        rewrite stored_session_dump by exact wf_empty_dict;
        cbn [session_id customer_email created_at context message_count status]).
  rewrite get_session_run. cbn [db].
  rewrite stored_session_dump by exact wf_empty_dict.
  reflexivity.
Qed.

(** C1, as the claim words it, fails: on the empty keyspace the three calls
    do not return 3, 2, 1. *)
Lemma C1_not_counting_down :
  ~ exists st',
      three_increments "2024-05-01T09:00:00" "2024-05-01T07:00:01"
        "2024-05-01T07:00:02" "2024-05-01T07:00:03" "s1" "ann@example.com"
        (State false ∅) =
        Returned (3, 2, 1, Some 3) st'.
Proof.
  intros [st' H]. vm_compute in H. discriminate H.
Qed.

(** On an existing session [update_session(id, status="closed")] returns
    true, and [get_session(id)] then shows the status "closed" and, as
    [last_activity], the UTC reading the update took. *)
Lemma update_status_closed utcnow id st s :
  stored_session id (db st) = Some s ->
  exists st',
    update_then_get utcnow id [("status", JStr "closed")] st =
      Returned
        (true,
         Some (mkSession (session_id s) (customer_email s) (created_at s) utcnow
                 (context s) (message_count s) "closed"))
        st'.
Proof.
  intros Hs. eexists.
  unfold update_then_get, bind.
  rewrite update_session_run, Hs. cbv beta iota zeta.
  rewrite get_session_run. cbn [db].
  change (setattr (apply_updates (attrs_of s) [("status", JStr "closed")])
            "last_activity" (JStr utcnow))
    with (attrs_of (mkSession (session_id s) (customer_email s) (created_at s)
                      utcnow (context s) (message_count s) "closed")).
  rewrite stored_session_attrs, model_validate_attrs; [reflexivity|].
  apply attrs_wf. cbn [context]. eapply stored_session_wf, Hs.
Qed.

(** C5, evaluated where it fails.  [create_session] stamps the session with
    the local clock ([_now_iso]), while [update_session], like every other
    writer, stamps with the UTC clock ([_utcnow_iso]).  Two hours east of
    Greenwich, a session is created at 09:00:00 local time and closed five
    seconds later, at 07:00:05 UTC: the update returns true and the status
    is "closed", but [last_activity] has moved back from 09:00:00 to
    07:00:05, where the claim has it strictly later. *)
Theorem C5_last_activity_not_later :
  exists s0 st0 s1 st1,
    create_session "2024-05-01T09:00:00" "s1" "ann@example.com" None
      (State false ∅) = Returned s0 st0 /\
    update_then_get "2024-05-01T07:00:05" "s1" [("status", JStr "closed")] st0 =
      Returned (true, Some s1) st1 /\
    status s1 = "closed" /\
    last_activity s0 = "2024-05-01T09:00:00" /\
    last_activity s1 = "2024-05-01T07:00:05" /\
    later (last_activity s1) (last_activity s0) = false.
Proof.
  eexists _, _, _, _. split; [vm_compute; reflexivity|].
  split; [vm_compute; reflexivity|]. repeat split.
Qed.

(** C6. [update_session] on an id under which nothing is stored returns
    false and leaves the keyspace as it was: no key is created and none is
    modified. *)
Theorem C6_update_absent_session utcnow id updates st :
  db st !! _session_key id = None ->
  exists st',
    update_session utcnow id updates st = Returned false st' /\
    db st' = db st.
Proof.
  intros Hnone. eexists. rewrite update_session_run.
  unfold stored_session. rewrite Hnone. split; reflexivity.
Qed.

Lemma C6_update_absent_session_witness :
  let st := State false {[ "session:s1" := Entry "{}" (Some 60) ]} in
  exists st',
    update_session "2024-05-01T07:00:05" "ghost" [("status", JStr "closed")] st =
      Returned false st' /\
    db st' = db st.
Proof.
  intros st. apply C6_update_absent_session. vm_compute. reflexivity.
Defined.

Lemma dict_get_set d k v : dict_get (dict_set d k v) k = Some v.
Proof.
  induction d as [|[k' v'] d IH]; cbn [dict_set dict_get].
  - rewrite String.eqb_refl. reflexivity.
  - destruct (String.eqb k k') eqn:E; cbn [dict_get]; rewrite ?String.eqb_refl, ?E;
      [reflexivity | exact IH].
Qed.

Lemma dict_get_absent d k : k ∉ map fst d -> dict_get d k = None.
Proof.
  induction d as [|[k' v'] d IH]; [reflexivity|]. cbn [map fst dict_get].
  intros H. apply not_elem_of_cons in H as [Hne H].
  destruct (String.eqb_spec k k'); [congruence | exact (IH H)].
Qed.

Lemma dict_get_set_ne d k k' v :
  k <> k' -> dict_get (dict_set d k' v) k = dict_get d k.
Proof.
  intros Hne. induction d as [|[k0 v0] d IH]; cbn [dict_set dict_get].
  - destruct (String.eqb_spec k k'); [congruence | reflexivity].
  - destruct (String.eqb_spec k' k0) as [->|Hk0]; cbn [dict_get].
    + destruct (String.eqb_spec k k0); [congruence | reflexivity].
    + destruct (String.eqb_spec k k0); [reflexivity | exact IH].
Qed.

(** ** The keyword arguments of [update_session] *)

Lemma call_update_session_run utcnow id kwargs st :
  existsb (fun kv => own_parameter (fst kv)) kwargs = false ->
  call_update_session utcnow id kwargs st = update_session utcnow id kwargs st.
Proof. intros H. unfold call_update_session. rewrite H. reflexivity. Qed.

Lemma no_own_parameter (P : string * json -> Prop) kwargs :
  (forall kv, P kv -> own_parameter (fst kv) = false) ->
  Forall P kwargs ->
  existsb (fun kv => own_parameter (fst kv)) kwargs = false.
Proof.
  intros HP. induction 1 as [|kv kwargs Hkv _ IH]; [reflexivity|].
  cbn [existsb]. rewrite (HP kv Hkv), IH. reflexivity.
Qed.










(** ** Customer context *)

Lemma set_context_run email ctx st :
  set_context email ctx None st =
    Returned tt
      (State true
         (<[_context_key email := Entry (dumps (JObj ctx)) (Some CONTEXT_TTL)]>
            (db st))).
Proof.
  unfold set_context, bind. rewrite ensure_connected_run. reflexivity.
Qed.

Lemma get_context_run email st :
  get_context email st =
    let data := value <$> db st !! _context_key email in
    if falsy data then Returned None (State true (db st))
    else match loads (default "" data) with
         | Some j => Returned (to_optional j) (State true (db st))
         | None => Raised JSONDecodeError (State true (db st))
         end.
Proof.
  unfold get_context, bind. rewrite ensure_connected_run. cbn.
  destruct (falsy _); [reflexivity|]. destruct (loads _); reflexivity.
Qed.

Lemma get_context_stored email ctx ttl d conn :
  wf (JObj ctx) ->
  get_context email
    (State conn (<[_context_key email := Entry (dumps (JObj ctx)) ttl]> d)) =
    Returned (Some (JObj ctx))
      (State true (<[_context_key email := Entry (dumps (JObj ctx)) ttl]> d)).
Proof.
  intros Hwf. rewrite get_context_run. cbn [db].
  rewrite lookup_insert_eq.
  cbn [fmap option_fmap option_map value default falsy].
  rewrite dumps_not_empty. unfold id.
  rewrite loads_dumps by exact Hwf. reflexivity.
Qed.

Lemma update_context_stored email ctx updates ttl d conn :
  wf (JObj ctx) ->
  update_context email updates
    (State conn (<[_context_key email := Entry (dumps (JObj ctx)) ttl]> d)) =
    Returned tt
      (State true
         (<[_context_key email :=
              Entry (dumps (JObj (dict_update ctx updates))) (Some CONTEXT_TTL)]>
            d)).
Proof.
  intros Hwf. unfold update_context, bind.
  rewrite ensure_connected_run. cbn [db].
  rewrite get_context_stored by exact Hwf.
  unfold or_empty_dict. destruct ctx as [|kv ctx]; cbn [truthy];
    rewrite set_context_run; cbn [db]; rewrite insert_insert_eq; reflexivity.
Qed.

(** C8. [set_context(email, {"a":1})], then [update_context(email,
    {"b":2})], then [get_context(email)] returns the merged mapping
    [{"a":1,"b":2}]. *)
Theorem C8_set_update_get_merges email st :
  exists st',
    set_update_get email [("a", JInt 1)] [("b", JInt 2)] st =
      Returned (Some (JObj [("a", JInt 1); ("b", JInt 2)])) st'.
Proof.
  eexists. unfold set_update_get, bind.
  rewrite set_context_run.
  assert (Ha : wf (JObj [("a", JInt 1)])).
  { apply wf_obj. split; [apply NoDup_singleton | repeat constructor]. }
  rewrite update_context_stored by exact Ha.
  change (dict_update [("a", JInt 1)] [("b", JInt 2)])
    with [("a", JInt 1); ("b", JInt 2)].
  rewrite get_context_stored; [reflexivity|].
  apply wf_obj. split; [|repeat constructor].
  apply (bool_decide_unpack _). reflexivity.
Qed.

(** C3, evaluated where it fails.  With text that is not JSON under the
    context key, [get_context] raises [JSONDecodeError]: there is no handler
    around [json.loads], and the keyspace keeps the text. *)
Theorem C3_get_context_raises_on_corrupt_text :
  let d : gmap string entry :=
    {[ "context:ann@example.com" := Entry "{not json" (Some CONTEXT_TTL) ]} in
  get_context "ann@example.com" (State true d) =
    Raised JSONDecodeError (State true d).
Proof. vm_compute. reflexivity. Qed.

Lemma update_context_absent email updates st :
  db st !! _context_key email = None ->
  update_context email updates st =
    Returned tt
      (State true
         (<[_context_key email :=
              Entry (dumps (JObj (dict_update [] updates))) (Some CONTEXT_TTL)]>
            (db st))).
Proof.
  intros Hnone. unfold update_context, bind.
  rewrite ensure_connected_run, get_context_run. cbn [db].
  rewrite Hnone. cbn [fmap option_fmap option_map falsy].
  cbv beta iota zeta. cbn [or_empty_dict].
  rewrite set_context_run. reflexivity.
Qed.

End RedisClientFacts.

(* ===================================================================== *)
(** * The simplified context cache *)
(* ===================================================================== *)

Module SimplifiedRedisClientFacts.

Import Redis SimplifiedRedisClient.

Lemma get_customer_context_absent email st :
  db st !! _context_key email = None ->
  get_customer_context email st = Returned None (State true (db st)).
Proof.
  intros Hnone. unfold get_customer_context, bind.
  rewrite RedisClientFacts.ensure_connected_run. cbn. rewrite Hnone.
  reflexivity.
Qed.

(** C7. On an email with no cached context, the simplified cache's
    [update_customer_context] returns false and creates no key: the
    keyspace is as it was.  The full variant's [update_context], on the same
    keyspace, creates the context instead. *)
Theorem C7_update_absent_context email updates st :
  db st !! _context_key email = None ->
  (exists st',
      update_customer_context email updates st = Returned false st' /\
      db st' = db st) /\
  (exists st',
      RedisClient.update_context email updates st = Returned tt st' /\
      is_Some (db st' !! _context_key email)).
Proof.
  intros Hnone. split.
  - eexists. unfold update_customer_context, bind.
    rewrite RedisClientFacts.ensure_connected_run.
    rewrite get_customer_context_absent by exact Hnone.
    split; reflexivity.
  - eexists. rewrite RedisClientFacts.update_context_absent by exact Hnone.
    split; [reflexivity|]. cbn [db].
    change (_context_key email) with (RedisClient._context_key email).
    rewrite lookup_insert_eq. eexists. reflexivity.
Qed.

Lemma C7_update_absent_context_witness :
  let st := State false {[ "context:bob@example.com" := Entry "{}" (Some 60) ]} in
  exists st',
    update_customer_context "ann@example.com" [("tier", JStr "gold")] st =
      Returned false st' /\
    db st' = db st.
Proof.
  intros st.
  refine (proj1 (C7_update_absent_context "ann@example.com"
                   [("tier", JStr "gold")] st _)).
  vm_compute. reflexivity.
Defined.

End SimplifiedRedisClientFacts.

(* ===================================================================== *)
(** * The conversation log *)
(* ===================================================================== *)

Module SQLiteClientFacts.

Import SQLiteClient.

Lemma _ensure_connected_run st :
  _ensure_connected st =
    Returned tt
      (State true (conversations st) (messages st) (sqlite_sequence st)).
Proof. destruct st as [[] c m q]; reflexivity. Qed.

Lemma update_conversation_run utcnow sid status it se st :
  update_conversation utcnow sid status it se st =
    Returned tt
      (State true
         (upsert (mkConversation sid (Some status) it se (Some utcnow)
                    (Some utcnow))
            (conversations st))
         (messages st) (sqlite_sequence st)).
Proof.
  unfold update_conversation, bind. rewrite _ensure_connected_run.
  reflexivity.
Qed.

(** ** The upsert on the table *)

Section Upsert.

Variable new : ConversationRow.

Let P (r : ConversationRow) : Prop := session_id r = session_id new.
Let f (r : ConversationRow) : ConversationRow :=
  if same_key new r then do_update r new else r.

Lemma same_key_spec r : same_key new r = true <-> P r.
Proof.
  unfold same_key, P. rewrite String.eqb_eq. split; congruence.
Qed.

Lemma update_keeps_key r : session_id (f r) = session_id r.
Proof. unfold f. destruct (same_key new r); reflexivity. Qed.

Lemma filter_absent tbl :
  session_id new ∉ map session_id tbl -> filter P tbl = [].
Proof.
  induction tbl as [|a tbl IH]; [reflexivity|]. cbn [map].
  intros H. apply not_elem_of_cons in H as [Hne H].
  rewrite filter_cons. destruct (decide (P a)) as [Ha|_]; [|exact (IH H)].
  unfold P in Ha. congruence.
Qed.

Lemma existsb_key tbl :
  existsb (same_key new) tbl = true <-> session_id new ∈ map session_id tbl.
Proof.
  induction tbl as [|a tbl IH]; cbn [existsb map].
  - split; [discriminate | intros H; inversion H].
  - rewrite orb_true_iff, IH, elem_of_cons, same_key_spec. unfold P.
    split; intros [H|H]; auto.
Qed.

Lemma filter_updated tbl :
  filter P (map f tbl) = map (fun r => do_update r new) (filter P tbl).
Proof.
  induction tbl as [|a tbl IH]; [reflexivity|]. cbn [map].
  rewrite !filter_cons.
  destruct (decide (P a)) as [Ha|Ha].
  - assert (Hf : f a = do_update a new).
    { unfold f. apply same_key_spec in Ha. rewrite Ha. reflexivity. }
    rewrite Hf. rewrite decide_True by exact Ha.
    cbn [map]. rewrite IH. reflexivity.
  - rewrite decide_False; [exact IH|].
    unfold P in *. rewrite update_keeps_key. exact Ha.
Qed.

Lemma filter_unique tbl :
  NoDup (map session_id tbl) ->
  session_id new ∈ map session_id tbl ->
  exists old, filter P tbl = [old].
Proof.
  induction tbl as [|a tbl IH]; cbn [map]; intros Hnd Hin;
    [inversion Hin|].
  apply NoDup_cons in Hnd as [Ha Hnd]. rewrite filter_cons.
  destruct (decide (P a)) as [Hp|Hp].
  - exists a. rewrite filter_absent; [reflexivity|].
    unfold P in Hp. rewrite <- Hp. exact Ha.
  - apply elem_of_cons in Hin as [Hin|Hin]; [unfold P in Hp; congruence|].
    exact (IH Hnd Hin).
Qed.

(** After the upsert the table has exactly one row for the key: the new
    row when there was none, the old row with its four columns overwritten
    when there was one. *)
Lemma rows_after_upsert tbl :
  NoDup (map session_id tbl) ->
  exists r,
    filter P (upsert new tbl) = [r] /\
    status r = status new /\
    issue_type r = issue_type new /\
    sentiment r = sentiment new /\
    updated_at r = updated_at new /\
    created_at r = match filter P tbl with
                   | old :: _ => created_at old
                   | [] => created_at new
                   end.
Proof.
  intros Hnd. unfold upsert.
  destruct (existsb (same_key new) tbl) eqn:E.
  - apply existsb_key in E. destruct (filter_unique tbl Hnd E) as [old Hold].
    exists (do_update old new). fold f. rewrite filter_updated, Hold.
    repeat split.
  - assert (Hnot : session_id new ∉ map session_id tbl).
    { intros H. apply existsb_key in H. congruence. }
    exists new. rewrite filter_app, (filter_absent tbl Hnot).
    rewrite filter_cons, decide_True by reflexivity.
    repeat split.
Qed.

Lemma upsert_keeps_pk tbl :
  NoDup (map session_id tbl) -> NoDup (map session_id (upsert new tbl)).
Proof.
  intros Hnd. unfold upsert.
  destruct (existsb (same_key new) tbl) eqn:E.
  - fold f. rewrite map_map.
    erewrite map_ext; [exact Hnd|]. intros r. apply update_keeps_key.
  - rewrite map_app. apply NoDup_app. split; [exact Hnd|]. split.
    + intros k Hk Hin. apply list_elem_of_singleton in Hin. subst k.
      apply existsb_key in Hk. congruence.
    + apply NoDup_singleton.
Qed.

End Upsert.

(** C2. [update_conversation(sid, status=s1)] followed by
    [update_conversation(sid, status=s2)] leaves exactly one row for [sid].
    After the first call that row has the status, issue type, sentiment and
    [updated_at] of the first call, and as [created_at] the first call's
    timestamp if the session had no row, the [created_at] of its row
    otherwise.  After the second call the row has the status, issue type,
    sentiment and [updated_at] of the second call, and the [created_at] it
    had after the first. *)
Theorem C2_upsert_twice t1 t2 sid s1 s2 it1 se1 it2 se2 st :
  pk_unique st ->
  exists st1 st2 r1 r2,
    update_conversation t1 sid s1 it1 se1 st = Returned tt st1 /\
    update_conversation t2 sid s2 it2 se2 st1 = Returned tt st2 /\
    rows_for sid st1 = [r1] /\
    rows_for sid st2 = [r2] /\
    (status r1 = Some s1 /\ issue_type r1 = it1 /\ sentiment r1 = se1 /\
     updated_at r1 = Some t1 /\
     created_at r1 = match rows_for sid st with
                     | old :: _ => created_at old
                     | [] => Some t1
                     end) /\
    status r2 = Some s2 /\
    issue_type r2 = it2 /\
    sentiment r2 = se2 /\
    updated_at r2 = Some t2 /\
    created_at r2 = created_at r1.
Proof.
  intros Hpk. unfold pk_unique in Hpk.
  set (n1 := mkConversation sid (Some s1) it1 se1 (Some t1) (Some t1)).
  set (n2 := mkConversation sid (Some s2) it2 se2 (Some t2) (Some t2)).
  destruct (rows_after_upsert n1 (conversations st) Hpk)
    as (r1 & H1 & Hst1 & Hit1 & Hse1 & Hup1 & Hcr1).
  pose proof (upsert_keeps_pk n1 (conversations st) Hpk) as Hpk1.
  destruct (rows_after_upsert n2 (upsert n1 (conversations st)) Hpk1)
    as (r2 & H2 & Hst & Hit & Hse & Hup & Hcr).
  change (session_id n2) with (session_id n1) in H2, Hcr.
  rewrite H1 in Hcr.
  eexists _, _, r1, r2. rewrite !update_conversation_run.
  split; [reflexivity|]. split; [reflexivity|].
  unfold rows_for. cbn [conversations].
  split; [exact H1|]. split; [exact H2|].
  split; [|auto].
  split; [exact Hst1|]. split; [exact Hit1|]. split; [exact Hse1|].
  split; [exact Hup1|]. exact Hcr1.
Qed.

Lemma C2_upsert_twice_witness :
  let st := State false
              [mkConversation "s0" (Some "active") None None
                 (Some "2024-05-01T06:00:00") (Some "2024-05-01T06:00:00")]
              [] 0 in
  exists st1 st2 r1 r2,
    update_conversation "2024-05-01T07:00:00" "s1" "active" None None st =
      Returned tt st1 /\
    update_conversation "2024-05-01T08:00:00" "s1" "resolved" None None st1 =
      Returned tt st2 /\
    rows_for "s1" st1 = [r1] /\
    rows_for "s1" st2 = [r2] /\
    (status r1 = Some "active" /\ issue_type r1 = None /\ sentiment r1 = None /\
     updated_at r1 = Some "2024-05-01T07:00:00" /\
     created_at r1 = match rows_for "s1" st with
                     | old :: _ => created_at old
                     | [] => Some "2024-05-01T07:00:00"
                     end) /\
    status r2 = Some "resolved" /\
    issue_type r2 = None /\
    sentiment r2 = None /\
    updated_at r2 = Some "2024-05-01T08:00:00" /\
    created_at r2 = created_at r1.
Proof.
  intros st. apply C2_upsert_twice.
  unfold pk_unique. cbn. apply NoDup_singleton.
Defined.

Lemma add_message_run utcnow sid mid email mtype content md st :
  has_room st ->
  add_message utcnow sid mid email mtype content md st =
    Returned tt
      (State true (conversations st)
         (messages st ++
          [mkMessage (next_id st) (Some sid) (Some mid) (Some email)
             (Some mtype) (Some content)
             (Some (dumps (JObj (or_empty md)))) (Some utcnow)])
         (next_id st)).
Proof.
  intros Hroom. unfold add_message, bind. rewrite _ensure_connected_run.
  unfold gets. unfold has_room in Hroom.
  assert (E : next_id (State true (conversations st) (messages st)
                         (sqlite_sequence st)) = next_id st) by reflexivity.
  rewrite E. apply Z.ltb_ge in Hroom. rewrite Hroom.
  unfold modify. cbn [conn conversations messages sqlite_sequence].
  rewrite E. reflexivity.
Qed.

Lemma add_message_when_full utcnow sid mid email mtype content md st :
  ~ has_room st ->
  add_message utcnow sid mid email mtype content md st =
    Raised OperationalError
      (State true (conversations st) (messages st) (sqlite_sequence st)).
Proof.
  intros Hfull. unfold add_message, bind. rewrite _ensure_connected_run.
  unfold gets. unfold has_room in Hfull.
  assert (E : next_id (State true (conversations st) (messages st)
                         (sqlite_sequence st)) = next_id st) by reflexivity.
  rewrite E. apply Z.nle_gt, Z.ltb_lt in Hfull. rewrite Hfull. reflexivity.
Qed.

(** C10. When [add_message] is called without metadata (or with null) on
    a table that can take one more row, the row it inserts holds the text
    of the empty mapping in its metadata column, not NULL, and the UTC
    reading taken by the call in its [created_at] column. *)
Theorem C10_add_message_default_metadata utcnow sid mid email mtype content st :
  has_room st ->
  exists row st',
    add_message utcnow sid mid email mtype content None st = Returned tt st' /\
    messages st' = messages st ++ [row] /\
    metadata row = Some "{}" /\
    m_created_at row = Some utcnow.
Proof.
  intros Hroom. eexists _, _. rewrite add_message_run by exact Hroom.
  split; [reflexivity|]. cbn [messages]. split; [reflexivity|].
  split; reflexivity.
Qed.

Lemma C10_add_message_default_metadata_witness :
  exists row st',
    add_message "2024-05-01T07:00:00" "s1" "m1" "ann@example.com" "customer"
      "Where is my order?" None (State false [] [] 0) = Returned tt st' /\
    messages st' = [] ++ [row] /\
    metadata row = Some "{}" /\
    m_created_at row = Some "2024-05-01T07:00:00".
Proof.
  apply (C10_add_message_default_metadata "2024-05-01T07:00:00" "s1" "m1"
           "ann@example.com" "customer" "Where is my order?"
           (State false [] [] 0)).
  unfold has_room. vm_compute. discriminate.
Defined.

End SQLiteClientFacts.

(* ===================================================================== *)
(** * More of the session store *)
(* ===================================================================== *)

Module SessionFacts.

Import Redis RedisClient RedisClientFacts.

Lemma get_run k st : get k st = Returned (value <$> db st !! k) st.
Proof. reflexivity. Qed.

Lemma delete_run k st :
  delete k st =
    Returned (if bool_decide (is_Some (db st !! k)) then 1 else 0)
      (with_db (base.delete k) st).
Proof. reflexivity. Qed.





(** X2. [delete_session] returns true exactly when a key was stored under
    the id; it removes that key and no other, and a following
    [get_session] returns None. *)
Theorem delete_session_removes_only_its_key id st :
  exists st',
    delete_session id st =
      Returned (bool_decide (is_Some (db st !! _session_key id))) st' /\
    db st' = base.delete (_session_key id) (db st) /\
    get_session id st' = Returned None (State true (db st')).
Proof.
  exists (State true (base.delete (_session_key id) (db st))).
  split; [|split; [reflexivity|]].
  - unfold delete_session, bind.
    rewrite ensure_connected_run, delete_run. cbn [db with_db connected].
    destruct (bool_decide _); reflexivity.
  - rewrite get_session_run. cbn [db].
    unfold stored_session. rewrite lookup_delete_eq. reflexivity.
Qed.

(** X3. [increment_message_count] on an id under which nothing is stored
    returns 0 and writes nothing. *)
Theorem increment_absent_session utcnow id st :
  db st !! _session_key id = None ->
  exists st',
    increment_message_count utcnow id st = Returned 0 st' /\ db st' = db st.
Proof.
  intros Hnone. eexists. rewrite increment_message_count_run.
  unfold stored_session. rewrite Hnone. split; reflexivity.
Qed.

Lemma increment_absent_session_witness :
  let st := State true ∅ in
  exists st',
    increment_message_count "2024-05-01T07:00:00" "ghost" st = Returned 0 st' /\
    db st' = db st.
Proof.
  intros st. apply increment_absent_session. vm_compute. reflexivity.
Defined.

(** X4. On an existing session [increment_message_count] returns the
    stored count plus one; the session read back afterwards has that count
    and the call's UTC reading as [last_activity], every other field as
    before, and the key's expiry is back at 24 hours. *)
Theorem increment_existing_session utcnow id st s :
  stored_session id (db st) = Some s ->
  exists st',
    increment_message_count utcnow id st =
      Returned (message_count s + 1) st' /\
    stored_session id (db st') =
      Some (mkSession (session_id s) (customer_email s) (created_at s) utcnow
              (context s) (message_count s + 1) (status s)) /\
    ttl <$> db st' !! _session_key id = Some (Some SESSION_TTL).
Proof.
  intros Hs. eexists. rewrite increment_message_count_run, Hs.
  cbv beta iota zeta. split; [reflexivity|]. cbn [db]. split.
  - apply stored_session_dump. cbn [context]. eapply stored_session_wf, Hs.
  - rewrite lookup_insert_eq. reflexivity.
Qed.

Lemma increment_existing_session_witness :
  let s := mkSession "s1" "ann@example.com" "2024-05-01T09:00:00"
             "2024-05-01T09:00:00" [] 4 "active" in
  let st := State true
              {[ "session:s1" := Entry (model_dump_json s) (Some 60) ]} in
  exists st',
    increment_message_count "2024-05-01T09:30:00" "s1" st = Returned 5 st' /\
    stored_session "s1" (db st') =
      Some (mkSession "s1" "ann@example.com" "2024-05-01T09:00:00"
              "2024-05-01T09:30:00" [] 5 "active") /\
    ttl <$> db st' !! _session_key "s1" = Some (Some SESSION_TTL).
Proof.
  intros s st.
  apply (increment_existing_session "2024-05-01T09:30:00" "s1" st s).
  vm_compute. reflexivity.
Defined.

Lemma apply_updates_null a kwargs :
  Forall (fun kv => is_none (snd kv) = true /\ own_parameter (fst kv) = false)
    kwargs ->
  apply_updates a kwargs = a.
Proof.
  unfold apply_updates. induction 1 as [|[f v] kwargs [Hv _] _ IH];
    [reflexivity|].
  cbn [fold_left fst snd] in *. rewrite Hv. cbn [negb andb]. exact IH.
Qed.

(** X5. Keyword arguments of [update_session] whose value is None change
    nothing, whatever their names (the function's own parameters apart,
    which cannot be keywords): the call still returns true, and the session
    read back differs from the stored one in [last_activity] alone, which
    is the call's UTC reading. *)
Theorem update_session_skips_null utcnow id kwargs st s :
  stored_session id (db st) = Some s ->
  Forall (fun kv => is_none (snd kv) = true /\ own_parameter (fst kv) = false)
    kwargs ->
  exists st',
    call_update_then_get utcnow id kwargs st =
      Returned
        (true,
         Some (mkSession (session_id s) (customer_email s) (created_at s)
                 utcnow (context s) (message_count s) (status s)))
        st'.
Proof.
  intros Hs Hupd. eexists. unfold call_update_then_get, bind.
  rewrite call_update_session_run
    by (eapply no_own_parameter; [|exact Hupd]; intros kv [_ H]; exact H).
  rewrite update_session_run, Hs. cbv beta iota zeta.
  rewrite get_session_run. cbn [db].
  rewrite (apply_updates_null _ _ Hupd).
  change (setattr (attrs_of s) "last_activity" (JStr utcnow))
    with (attrs_of (mkSession (session_id s) (customer_email s) (created_at s)
                      utcnow (context s) (message_count s) (status s))).
  rewrite stored_session_attrs, model_validate_attrs; [reflexivity|].
  apply attrs_wf. cbn [context]. eapply stored_session_wf, Hs.
Qed.

Lemma update_session_skips_null_witness :
  let s := mkSession "s1" "ann@example.com" "2024-05-01T09:00:00"
             "2024-05-01T09:00:00" [] 4 "active" in
  let st := State true
              {[ "session:s1" := Entry (model_dump_json s) (Some 60) ]} in
  exists st',
    call_update_then_get "2024-05-01T09:30:00" "s1"
      [("status", JNull); ("priority", JNull)] st =
      Returned
        (true,
         Some (mkSession "s1" "ann@example.com" "2024-05-01T09:00:00"
                 "2024-05-01T09:30:00" [] 4 "active"))
        st'.
Proof.
  intros s st.
  apply (update_session_skips_null "2024-05-01T09:30:00" "s1"
           [("status", JNull); ("priority", JNull)] st s).
  - vm_compute. reflexivity.
  - apply List.Forall_cons; [split; reflexivity|].
    apply List.Forall_cons; [split; reflexivity|].
    apply List.Forall_nil.
Defined.

(** X6. Assignment in [update_session] is not validated: with a number
    given for [status] the call returns true and stores the record, but the
    stored text no longer validates, so [get_session] returns None for that
    id from then on, although the key is still there. *)
Theorem update_session_can_make_session_unreadable utcnow id n st s :
  stored_session id (db st) = Some s ->
  exists st',
    update_session utcnow id [("status", JInt n)] st = Returned true st' /\
    get_session id st' = Returned None (State true (db st')) /\
    is_Some (db st' !! _session_key id).
Proof.
  intros Hs. eexists. rewrite update_session_run, Hs. cbv beta iota zeta.
  split; [reflexivity|]. rewrite get_session_run. cbn [db].
  change (setattr (apply_updates (attrs_of s) [("status", JInt n)])
            "last_activity" (JStr utcnow))
    with [ ("session_id", JStr (session_id s));
           ("customer_email", JStr (customer_email s));
           ("created_at", JStr (created_at s));
           ("last_activity", JStr utcnow);
           ("context", JObj (context s));
           ("message_count", JInt (message_count s));
           ("status", JInt n) ].
  split.
  - rewrite stored_session_attrs; [reflexivity|].
    apply wf_obj. split; [apply (bool_decide_unpack _); reflexivity|].
    repeat (apply List.Forall_cons;
            [first [exact (stored_session_wf _ _ _ Hs) | exact I] |]).
    apply List.Forall_nil.
  - rewrite lookup_insert_eq. eexists. reflexivity.
Qed.

Lemma update_session_can_make_session_unreadable_witness :
  let s := mkSession "s1" "ann@example.com" "2024-05-01T09:00:00"
             "2024-05-01T09:00:00" [] 4 "active" in
  let st := State true
              {[ "session:s1" := Entry (model_dump_json s) (Some 60) ]} in
  exists st',
    update_session "2024-05-01T09:30:00" "s1" [("status", JInt 7)] st =
      Returned true st' /\
    get_session "s1" st' = Returned None (State true (db st')) /\
    is_Some (db st' !! _session_key "s1").
Proof.
  intros s st.
  apply (update_session_can_make_session_unreadable "2024-05-01T09:30:00"
           "s1" 7 st s).
  vm_compute. reflexivity.
Defined.

End SessionFacts.

(* ===================================================================== *)
(** * More of the customer context, temporary data and counters *)
(* ===================================================================== *)

Module ContextFacts.

Import Redis RedisClient RedisClientFacts SessionFacts.

Lemma ttl_or_accepted t default :
  ttl_ok t ->
  (0 <? default)%Z && (default <=? EXPIRE_SAFE)%Z = true ->
  (ttl_or t default <=? 0)%Z || (LLONG_MAX / 1000 <? ttl_or t default)%Z = false.
Proof.
  intros Ht Hd. apply andb_true_iff in Hd as [Hd1 Hd2].
  apply Z.ltb_lt in Hd1. apply Z.leb_le in Hd2.
  assert (Hsafe : (EXPIRE_SAFE <= LLONG_MAX / 1000)%Z) by (vm_compute; discriminate).
  apply orb_false_iff. rewrite Z.leb_gt, Z.ltb_ge.
  destruct t as [n|]; cbn [ttl_or ttl_ok] in *; [|lia].
  destruct (Z.eqb_spec n 0); lia.
Qed.

Lemma setex_run k seconds v st :
  (seconds <=? 0)%Z || (LLONG_MAX / 1000 <? seconds)%Z = false ->
  setex k seconds v st =
    Returned tt (with_db (insert k (Entry v (Some seconds))) st).
Proof. intros H. unfold setex. rewrite H. reflexivity. Qed.

Lemma set_context_run_ttl email ctx t st :
  ttl_ok t ->
  set_context email ctx t st =
    Returned tt
      (State true
         (<[_context_key email :=
              Entry (dumps (JObj ctx)) (Some (ttl_or t CONTEXT_TTL))]> (db st))).
Proof.
  intros Ht. unfold set_context, bind. rewrite ensure_connected_run.
  rewrite setex_run by (apply ttl_or_accepted; [exact Ht | reflexivity]).
  reflexivity.
Qed.

(** X7. With an expiry the engine accepts (None, or from 0 up to
    [EXPIRE_SAFE] seconds), [set_context] followed by [get_context] returns
    the mapping that was stored.  The key expires after the given number of
    seconds, or after the default two hours when the argument is missing
    or 0. *)
Theorem set_context_then_get email ctx t st :
  wf (JObj ctx) ->
  ttl_ok t ->
  exists st',
    (await _ <- set_context email ctx t ;; get_context email) st =
      Returned (Some (JObj ctx)) st' /\
    ttl <$> db st' !! _context_key email =
      Some (Some (match t with
                  | Some n => if (n =? 0)%Z then 7200 else n
                  | None => 7200
                  end)).
Proof.
  intros Hwf Ht. eexists. unfold bind.
  rewrite set_context_run_ttl by exact Ht.
  rewrite get_context_stored by exact Hwf.
  split; [reflexivity|]. cbn [db]. rewrite lookup_insert_eq. reflexivity.
Qed.

Lemma set_context_then_get_witness :
  exists st',
    (await _ <- set_context "ann@example.com" [("tier", JStr "gold")] (Some 0) ;;
     get_context "ann@example.com") (State false ∅) =
      Returned (Some (JObj [("tier", JStr "gold")])) st' /\
    ttl <$> db st' !! _context_key "ann@example.com" = Some (Some 7200).
Proof.
  apply (set_context_then_get "ann@example.com" [("tier", JStr "gold")]
           (Some 0) (State false ∅)).
  - apply wf_obj. split; [apply NoDup_singleton | repeat constructor].
  - vm_compute. split; discriminate.
Defined.

(** ** Merging *)

(** [d.update(u)] read key by key: the value of [u] where [u] has the key,
    the value of [d] elsewhere. *)
Lemma dict_get_update d u k :
  NoDup (map fst u) ->
  dict_get (dict_update d u) k =
    match dict_get u k with
    | Some v => Some v
    | None => dict_get d k
    end.
Proof.
  unfold dict_update. revert d.
  induction u as [|[k1 v1] u IH]; intros d Hnd; [reflexivity|].
  cbn [map fst] in Hnd. apply NoDup_cons in Hnd as [Hk1 Hnd].
  cbn [fold_left fst snd dict_get]. rewrite IH by exact Hnd.
  destruct (String.eqb_spec k k1) as [->|Hne].
  - rewrite (dict_get_absent u k1 Hk1). apply dict_get_set.
  - rewrite dict_get_set_ne by exact Hne. reflexivity.
Qed.

(** X8. After [set_context(email, a, ttl)] with an expiry the engine
    accepts (None, or from 0 up to [EXPIRE_SAFE] seconds),
    [update_context(email, u)] stores the shallow merge: [get_context] then returns a mapping that has, under
    each key, the value of [u] if [u] has the key and the value of [a]
    otherwise.  The merged record is written with the default expiry of two
    hours, whatever expiry [a] was stored with. *)
Theorem update_context_merges_and_resets_ttl email a u t st :
  wf (JObj a) ->
  wf (JObj u) ->
  ttl_ok t ->
  exists m st',
    (await _ <- set_context email a t ;;
     await _ <- update_context email u ;;
     get_context email) st = Returned (Some (JObj m)) st' /\
    (forall k, dict_get m k = match dict_get u k with
                              | Some v => Some v
                              | None => dict_get a k
                              end) /\
    ttl <$> db st' !! _context_key email = Some (Some 7200).
Proof.
  intros Ha Hu Ht. exists (dict_update a u). eexists. unfold bind.
  rewrite set_context_run_ttl by exact Ht.
  rewrite update_context_stored by exact Ha.
  assert (Hm : wf (JObj (dict_update a u))).
  { apply dict_update_wf; [exact Ha|]. apply wf_obj in Hu. apply Hu. }
  rewrite get_context_stored by exact Hm.
  split; [reflexivity|]. split.
  - intros k. apply dict_get_update. apply wf_obj in Hu. apply Hu.
  - cbn [db]. rewrite lookup_insert_eq. reflexivity.
Qed.

Lemma update_context_merges_and_resets_ttl_witness :
  exists m st',
    (await _ <- set_context "ann@example.com"
                  [("tier", JStr "gold"); ("orders", JInt 3)] (Some 86400) ;;
     await _ <- update_context "ann@example.com" [("orders", JInt 4)] ;;
     get_context "ann@example.com") (State false ∅) =
      Returned (Some (JObj m)) st' /\
    (forall k, dict_get m k = match dict_get [("orders", JInt 4)] k with
                              | Some v => Some v
                              | None =>
                                  dict_get
                                    [("tier", JStr "gold"); ("orders", JInt 3)] k
                              end) /\
    ttl <$> db st' !! _context_key "ann@example.com" = Some (Some 7200).
Proof.
  apply (update_context_merges_and_resets_ttl "ann@example.com"
           [("tier", JStr "gold"); ("orders", JInt 3)] [("orders", JInt 4)]
           (Some 86400) (State false ∅)).
  - apply wf_obj. split; [apply (bool_decide_unpack _); reflexivity|].
    repeat constructor.
  - apply wf_obj. split; [apply NoDup_singleton | repeat constructor].
  - vm_compute. split; discriminate.
Defined.

Lemma loads_nonempty t j : loads t = Some j -> String.eqb t "" = false.
Proof. destruct t; [discriminate | reflexivity]. Qed.

Lemma get_context_parsed email st e j :
  db st !! _context_key email = Some e ->
  loads (value e) = Some j ->
  get_context email st = Returned (to_optional j) (State true (db st)).
Proof.
  intros He Hj. rewrite get_context_run, He.
  cbn [fmap option_fmap option_map default falsy]. cbv zeta.
  rewrite (loads_nonempty _ _ Hj). unfold Datatypes.id. rewrite Hj.
  reflexivity.
Qed.

(** X9. When the context key holds JSON that is not a mapping and is
    truthy in Python (a non-empty list or text, a non-zero number, true),
    [update_context] raises [AttributeError] and writes nothing. *)
Theorem update_context_on_non_mapping_raises email u st e j :
  db st !! _context_key email = Some e ->
  loads (value e) = Some j ->
  truthy j = true ->
  (forall d, j <> JObj d) ->
  update_context email u st = Raised AttributeError (State true (db st)).
Proof.
  intros He Hj Ht Hobj. unfold update_context, bind.
  rewrite ensure_connected_run.
  rewrite (get_context_parsed email _ e j) by assumption.
  destruct j as [|b|z|s|l|d]; cbn [to_optional or_empty_dict] in *;
    try discriminate Ht; rewrite ?Ht; try reflexivity.
  destruct (Hobj d eq_refl).
Qed.

Lemma update_context_on_non_mapping_raises_witness :
  let st := State true {[ "context:ann@example.com" := Entry "[1, 2]" (Some 60) ]} in
  update_context "ann@example.com" [("tier", JStr "gold")] st =
    Raised AttributeError (State true (db st)).
Proof.
  intros st.
  apply (update_context_on_non_mapping_raises "ann@example.com"
           [("tier", JStr "gold")] st (Entry "[1, 2]" (Some 60))
           (JArr [JInt 1; JInt 2])).
  - vm_compute. reflexivity.
  - vm_compute. reflexivity.
  - reflexivity.
  - discriminate.
Defined.

(** X10. When the context key holds JSON that is falsy in Python (null,
    false, 0, an empty text, list or mapping), [update_context] discards it:
    what it stores is the updates alone, with the default expiry. *)
Theorem update_context_replaces_falsy_value email u st e j :
  db st !! _context_key email = Some e ->
  loads (value e) = Some j ->
  truthy j = false ->
  update_context email u st =
    Returned tt
      (State true
         (<[_context_key email :=
              Entry (dumps (JObj (dict_update [] u))) (Some CONTEXT_TTL)]>
            (db st))).
Proof.
  intros He Hj Ht. unfold update_context, bind.
  rewrite ensure_connected_run.
  rewrite (get_context_parsed email _ e j) by assumption.
  assert (E : or_empty_dict (to_optional j) = JObj []).
  { destruct j; cbn [to_optional or_empty_dict]; rewrite ?Ht; reflexivity. }
  rewrite E. rewrite set_context_run. reflexivity.
Qed.

Lemma update_context_replaces_falsy_value_witness :
  let st := State true {[ "context:ann@example.com" := Entry "0" (Some 60) ]} in
  update_context "ann@example.com" [("tier", JStr "gold")] st =
    Returned tt
      (State true
         (<[_context_key "ann@example.com" :=
              Entry (dumps (JObj (dict_update [] [("tier", JStr "gold")])))
                (Some CONTEXT_TTL)]> (db st))).
Proof.
  intros st.
  apply (update_context_replaces_falsy_value "ann@example.com"
           [("tier", JStr "gold")] st (Entry "0" (Some 60)) (JInt 0)).
  - vm_compute. reflexivity.
  - vm_compute. reflexivity.
  - reflexivity.
Defined.

(** X11. [delete_context] and [delete_temp_data] return true exactly when
    their key was stored; each removes that key and no other, so the
    following read of the key finds nothing. *)
Theorem delete_context_and_temp_data email key st :
  (exists st',
      delete_context email st =
        Returned (bool_decide (is_Some (db st !! _context_key email))) st' /\
      db st' = base.delete (_context_key email) (db st) /\
      get_context email st' = Returned None (State true (db st'))) /\
  (exists st',
      delete_temp_data key st =
        Returned (bool_decide (is_Some (db st !! _temp_key key))) st' /\
      db st' = base.delete (_temp_key key) (db st) /\
      get_temp_data key st' = Returned None (State true (db st'))).
Proof.
  split.
  - exists (State true (base.delete (_context_key email) (db st))).
    split; [|split; [reflexivity|]].
    + unfold delete_context, bind.
      rewrite ensure_connected_run, delete_run. cbn [db with_db connected].
      destruct (bool_decide _); reflexivity.
    + rewrite get_context_run. cbn [db]. rewrite lookup_delete_eq. reflexivity.
  - exists (State true (base.delete (_temp_key key) (db st))).
    split; [|split; [reflexivity|]].
    + unfold delete_temp_data, bind.
      rewrite ensure_connected_run, delete_run. cbn [db with_db connected].
      destruct (bool_decide _); reflexivity.
    + unfold get_temp_data, bind. rewrite ensure_connected_run, get_run.
      cbn [db]. rewrite lookup_delete_eq. reflexivity.
Qed.

(** ** Temporary data *)

Lemma set_temp_data_run key data t st :
  ttl_ok t ->
  set_temp_data key data t st =
    Returned tt
      (State true
         (<[_temp_key key :=
              Entry (match data with
                     | JArr _ | JObj _ => dumps data
                     | _ => py_str data
                     end) (Some (ttl_or t TEMP_TTL))]> (db st))).
Proof.
  intros Ht. unfold set_temp_data, bind. rewrite ensure_connected_run.
  rewrite setex_run by (apply ttl_or_accepted; [exact Ht | reflexivity]).
  reflexivity.
Qed.

(** X12. [get_temp_data] after [set_temp_data] returns the stored text:
    for a text value the text itself, whatever it is; for a list or mapping
    its JSON, which [json.loads] reads back to the value.  The key expires
    after the given seconds, or after five minutes when the argument is
    missing or 0; the expiry is one the engine accepts (None, or from 0 up
    to [EXPIRE_SAFE] seconds). *)
Theorem set_temp_data_then_get key data t st :
  ttl_ok t ->
  exists text st',
    (await _ <- set_temp_data key data t ;; get_temp_data key) st =
      Returned (Some text) st' /\
    (forall s, data = JStr s -> text = s) /\
    (wf data ->
     match data with
     | JArr _ | JObj _ => loads text = Some data
     | _ => True
     end) /\
    ttl <$> db st' !! _temp_key key =
      Some (Some (match t with
                  | Some n => if (n =? 0)%Z then 300 else n
                  | None => 300
                  end)).
Proof.
  intros Ht. eexists _, _. unfold bind.
  rewrite set_temp_data_run by exact Ht.
  unfold get_temp_data, bind. rewrite ensure_connected_run, get_run.
  cbn [db]. rewrite lookup_insert_eq.
  cbn [fmap option_fmap option_map value ttl].
  split; [reflexivity|]. split; [|split].
  - intros s ->. reflexivity.
  - intros Hwf. destruct data; try exact I; apply loads_dumps, Hwf.
  - cbn [db]. rewrite lookup_insert_eq. reflexivity.
Qed.

Lemma set_temp_data_then_get_witness :
  exists text st',
    (await _ <- set_temp_data "draft" (JStr "") None ;; get_temp_data "draft")
      (State false ∅) = Returned (Some text) st' /\
    text = "".
Proof.
  destruct (set_temp_data_then_get "draft" (JStr "") None (State false ∅) I)
    as (text & st' & Hrun & Htext & _).
  exists text, st'. split; [exact Hrun|]. apply Htext. reflexivity.
Defined.

End ContextFacts.

Module CounterFacts.

Import Redis RedisClient RedisClientFacts SessionFacts.

Lemma minus_zero_print_int z : minus_zero (print_int z) = false.
Proof.
  unfold print_int. pose proof (canonical_to_int z) as Hc.
  destruct z as [|p|p]; cbn [Z.to_int] in *; [reflexivity| |].
  - destruct (Pos.to_uint p); reflexivity.
  - pose proof (DecimalPos.Unsigned.to_uint_nonzero p) as Hnz.
    destruct (Pos.to_uint p) as [|u|u|u|u|u|u|u|u|u|u]; try reflexivity.
    destruct u; try discriminate Hc. destruct Hnz. reflexivity.
Qed.

(** The engine reads back the integers it writes. *)
Lemma string2ll_ll2string z :
  in_int64 z = true -> string2ll (ll2string z) = Some z.
Proof.
  intros Hz. unfold string2ll, ll2string.
  rewrite list_ascii_of_string_of_list_ascii.
  pose proof (parse_int_print z [] I) as Hp. rewrite app_nil_r in Hp.
  rewrite Hp, minus_zero_print_int, Hz. reflexivity.
Qed.

Lemma incrby_absent k amount st :
  in_int64 amount = true ->
  db st !! k = None ->
  incrby k amount st =
    Returned amount (with_db (insert k (Entry (ll2string amount) None)) st).
Proof.
  intros Ha Hk. unfold incrby. rewrite Ha. cbn [negb]. unfold bind, gets.
  rewrite Hk. reflexivity.
Qed.

Lemma incrby_present k amount st e v :
  in_int64 amount = true ->
  db st !! k = Some e ->
  string2ll (value e) = Some v ->
  in_int64 (v + amount) = true ->
  incrby k amount st =
    Returned (v + amount)
      (with_db (insert k (Entry (ll2string (v + amount)) (ttl e))) st).
Proof.
  intros Ha Hk Hv Hsum. unfold incrby. rewrite Ha. cbn [negb].
  unfold bind, gets. rewrite Hk, Hv, Hsum. reflexivity.
Qed.

(** X13. On a key that was never touched, [increment_counter(key, a)]
    returns [a] and creates the counter without expiry; a second call with
    [b] then returns [a + b]. *)
Theorem increment_counter_from_nothing key a b st :
  db st !! _counter_key key = None ->
  in_int64 a = true -> in_int64 b = true -> in_int64 (a + b) = true ->
  exists st1 st2,
    increment_counter key a st = Returned a st1 /\
    increment_counter key b st1 = Returned (a + b) st2 /\
    ttl <$> db st1 !! _counter_key key = Some None /\
    ttl <$> db st2 !! _counter_key key = Some None.
Proof.
  intros Hk Ha Hb Hab.
  set (k := _counter_key key) in *.
  exists (State true (<[k := Entry (ll2string a) None]> (db st))).
  exists (State true (<[k := Entry (ll2string (a + b)) None]>
                        (<[k := Entry (ll2string a) None]> (db st)))).
  unfold increment_counter, bind. rewrite !ensure_connected_run.
  cbn [db]. fold k.
  rewrite (incrby_absent k a) by assumption.
  rewrite (incrby_present k b _ (Entry (ll2string a) None) a);
    [| exact Hb | apply lookup_insert_eq | apply string2ll_ll2string, Ha
     | exact Hab ].
  cbn [db with_db connected ttl]. rewrite !lookup_insert_eq.
  repeat split.
Qed.

Lemma increment_counter_from_nothing_witness :
  exists st1 st2,
    increment_counter "hits" 5 (State false ∅) = Returned 5 st1 /\
    increment_counter "hits" (-7) st1 = Returned (5 + -7) st2 /\
    ttl <$> db st1 !! _counter_key "hits" = Some None /\
    ttl <$> db st2 !! _counter_key "hits" = Some None.
Proof.
  apply (increment_counter_from_nothing "hits" 5 (-7) (State false ∅));
    vm_compute; reflexivity.
Defined.

(** X14. On a counter that holds the integer [v], [increment_counter(key,
    a)] returns [v + a]; the key then holds [v + a] and keeps the expiry it
    had. *)
Theorem increment_counter_adds key a st e v :
  db st !! _counter_key key = Some e ->
  string2ll (value e) = Some v ->
  in_int64 a = true -> in_int64 (v + a) = true ->
  exists st' e',
    increment_counter key a st = Returned (v + a) st' /\
    db st' !! _counter_key key = Some e' /\
    string2ll (value e') = Some (v + a) /\
    ttl e' = ttl e.
Proof.
  intros Hk Hv Ha Hsum. eexists _, _. unfold increment_counter, bind.
  rewrite ensure_connected_run.
  rewrite (incrby_present _ a _ e v) by assumption.
  split; [reflexivity|]. cbn [db with_db connected].
  split; [apply lookup_insert_eq|]. cbn [value ttl].
  split; [apply string2ll_ll2string, Hsum | reflexivity].
Qed.

Lemma increment_counter_adds_witness :
  let st := State true {[ "counter:hits" := Entry "41" (Some 60) ]} in
  exists st' e',
    increment_counter "hits" 1 st = Returned (41 + 1) st' /\
    db st' !! _counter_key "hits" = Some e' /\
    string2ll (value e') = Some (41 + 1) /\
    ttl e' = Some 60.
Proof.
  intros st.
  apply (increment_counter_adds "hits" 1 st (Entry "41" (Some 60)) 41);
    vm_compute; reflexivity.
Defined.

(** X15. [reset_counter] sets the counter to 0 without deleting it: the
    key exists afterwards, with no expiry, whether or not it existed before,
    and the next [increment_counter(key, n)] returns [n]. *)
Theorem reset_counter_then_increment key n st :
  in_int64 n = true ->
  exists st1 st2,
    reset_counter key st = Returned tt st1 /\
    db st1 !! _counter_key key = Some (Entry "0" None) /\
    increment_counter key n st1 = Returned n st2.
Proof.
  intros Hn.
  set (k := _counter_key key).
  exists (State true (<[k := Entry "0" None]> (db st))).
  exists (State true (<[k := Entry (ll2string (0 + n)) None]>
                        (<[k := Entry "0" None]> (db st)))).
  unfold reset_counter, increment_counter, bind.
  rewrite !ensure_connected_run. cbn [db]. fold k.
  rewrite (incrby_present k n _ (Entry "0" None) 0);
    [| exact Hn | apply lookup_insert_eq | reflexivity | exact Hn].
  split; [reflexivity|]. split; [apply lookup_insert_eq | reflexivity].
Qed.

Lemma reset_counter_then_increment_witness :
  exists st1 st2,
    reset_counter "hits" (State true {[ "counter:hits" := Entry "41" (Some 60) ]})
      = Returned tt st1 /\
    db st1 !! _counter_key "hits" = Some (Entry "0" None) /\
    increment_counter "hits" 3 st1 = Returned 3 st2.
Proof.
  apply (reset_counter_then_increment "hits" 3). reflexivity.
Defined.

(** X16. [increment_counter] raises the engine's [ResponseError], and
    writes nothing, when the key holds text that is not an integer or when
    the sum would leave the signed 64-bit range. *)
Theorem increment_counter_refused key a st e :
  db st !! _counter_key key = Some e ->
  in_int64 a = true ->
  (string2ll (value e) = None \/
   exists v, string2ll (value e) = Some v /\ in_int64 (v + a) = false) ->
  increment_counter key a st = Raised ResponseError (State true (db st)).
Proof.
  intros Hk Ha Hbad. unfold increment_counter, bind.
  rewrite ensure_connected_run. unfold incrby. rewrite Ha. cbn [negb].
  unfold bind, gets. cbn [db]. rewrite Hk.
  destruct Hbad as [-> | (v & -> & ->)]; reflexivity.
Qed.

Lemma increment_counter_refused_witness :
  let st := State true
              {[ "counter:hits" := Entry "9223372036854775807" None ]} in
  increment_counter "hits" 1 st = Raised ResponseError (State true (db st)).
Proof.
  intros st.
  apply (increment_counter_refused "hits" 1 st
           (Entry "9223372036854775807" None)).
  - vm_compute. reflexivity.
  - reflexivity.
  - right. exists 9223372036854775807. split; vm_compute; reflexivity.
Defined.

End CounterFacts.

Module BulkFacts.

Import Redis RedisClient RedisClientFacts SessionFacts.

(** ** Key namespaces *)

Lemma prefix_app p k :
  String.prefix p k = true <-> exists r, k = p +:+ r.
Proof.
  revert k. induction p as [|a p IH]; intros k.
  - split; [intros _; exists k; reflexivity | intros _; destruct k; reflexivity].
  - destruct k as [|b k]; cbn [String.prefix].
    + split; [discriminate | intros [r Hr]; discriminate Hr].
    + destruct (ascii_dec a b) as [->|Hne].
      * rewrite IH. split; intros [r Hr]; exists r.
        -- rewrite Hr. reflexivity.
        -- injection Hr as Hr. exact Hr.
      * split; [discriminate|]. intros [r Hr]. injection Hr as Hab _.
        congruence.
Qed.

(** X17. The four kinds of key never coincide, and distinct ids, emails or
    names give distinct keys: a session, a context, a temporary value and a
    counter each live under a key of their own. *)
Theorem key_namespaces_are_disjoint a b :
  _session_key a <> _context_key b /\
  _session_key a <> _temp_key b /\
  _session_key a <> _counter_key b /\
  _context_key a <> _temp_key b /\
  _context_key a <> _counter_key b /\
  _temp_key a <> _counter_key b /\
  (_session_key a = _session_key b -> a = b) /\
  (_context_key a = _context_key b -> a = b) /\
  (_temp_key a = _temp_key b -> a = b) /\
  (_counter_key a = _counter_key b -> a = b).
Proof.
  repeat split; try discriminate; apply String.app_inj.
Qed.

(** ** Listing the sessions of a customer *)

Lemma collect_sessions_run email keys acc st :
  collect_sessions email keys acc st =
    Returned (acc ++ omap (pick_for email (db st)) keys) st.
Proof.
  revert acc. induction keys as [|k keys IH]; intros acc.
  - cbn. rewrite app_nil_r. reflexivity.
  - cbn [collect_sessions omap list_omap]. unfold bind. rewrite get_run.
    remember (pick_for email (db st) k) as o eqn:Hp.
    unfold pick_for, session_under in Hp. cbv zeta in Hp.
    destruct (falsy _); [subst o; apply IH|].
    destruct (model_validate_json _) as [s|]; [|subst o; apply IH].
    destruct (String.eqb _ email); subst o; rewrite IH; [|reflexivity].
    rewrite <- app_assoc. reflexivity.
Qed.

Lemma scan_iter_keys p st k :
  k ∈ filter (fun k => String.prefix p k = true) (map_to_list (db st)).*1 <->
  String.prefix p k = true /\ is_Some (db st !! k).
Proof.
  rewrite list_elem_of_filter, list_elem_of_fmap. apply and_iff_compat_l.
  split.
  - intros ([k' e] & -> & Hin). apply elem_of_map_to_list in Hin.
    exists e. exact Hin.
  - intros [e He]. exists (k, e). split; [reflexivity|].
    apply elem_of_map_to_list, He.
Qed.

Lemma get_sessions_by_customer_run email st :
  exists l,
    get_sessions_by_customer email st = Returned l (State true (db st)) /\
    forall s,
      s ∈ l <->
      exists id, stored_session id (db st) = Some s /\ customer_email s = email.
Proof.
  eexists. unfold get_sessions_by_customer, bind.
  rewrite ensure_connected_run. unfold scan_iter, gets.
  rewrite collect_sessions_run. cbn [db app].
  split; [reflexivity|]. intros s. rewrite list_elem_of_omap. split.
  - intros (k & Hk & Hpick). apply scan_iter_keys in Hk as [Hp _].
    apply prefix_app in Hp as [id ->]. exists id.
    unfold pick_for in Hpick. fold (_session_key id) in Hpick.
    change (session_under (_session_key id) (db st))
      with (stored_session id (db st)) in Hpick.
    destruct (stored_session id (db st)) as [s'|]; [|discriminate Hpick].
    destruct (String.eqb_spec (customer_email s') email) as [He|_];
      [|discriminate Hpick].
    injection Hpick as <-. split; [reflexivity | exact He].
  - intros (id & Hs & He). exists (_session_key id). split.
    + apply scan_iter_keys. split; [apply prefix_app; exists id; reflexivity|].
      unfold stored_session in Hs.
      destruct (db st !! _session_key id); [eexists; reflexivity|].
      discriminate Hs.
    + unfold pick_for.
      change (session_under (_session_key id) (db st))
        with (stored_session id (db st)).
      rewrite Hs, He, String.eqb_refl. reflexivity.
Qed.




(** X19. A session just created for a customer is among the sessions that
    [get_sessions_by_customer] lists for that customer's email. *)
Theorem created_session_is_listed now id email st :
  exists s st1 l st2,
    create_session now id email None st = Returned s st1 /\
    get_sessions_by_customer email st1 = Returned l st2 /\
    s ∈ l.
Proof.
  destruct (get_sessions_by_customer_run email
              (State true
                 (<[_session_key id :=
                      Entry (model_dump_json
                               (mkSession id email now now [] 0 "active"))
                        (Some SESSION_TTL)]> (db st))))
    as (l & Hl & Hin).
  eexists _, _, l, _. rewrite create_session_run. cbn zeta.
  split; [reflexivity|]. split; [exact Hl|].
  apply Hin. exists id. cbn [db]. split; [|reflexivity].
  apply stored_session_dump, wf_empty_dict.
Qed.

(** ** The census *)

Lemma count_insert_fresh (P : string -> Prop) `{!forall k, Decision (P k)}
    (m : gmap string entry) k v :
  m !! k = None ->
  length (filter P (map_to_list (<[k := v]> m)).*1) =
    ((if decide (P k) then 1 else 0) + length (filter P (map_to_list m).*1))%nat.
Proof.
  intros Hk. rewrite (map_to_list_insert m k v Hk).
  cbn [fmap list_fmap fst]. rewrite filter_cons.
  destruct (decide (P k)); reflexivity.
Qed.

Lemma count_insert_present (P : string -> Prop) `{!forall k, Decision (P k)}
    (m : gmap string entry) k v :
  is_Some (m !! k) ->
  length (filter P (map_to_list (<[k := v]> m)).*1) =
    length (filter P (map_to_list m).*1).
Proof.
  intros [v0 Hk].
  rewrite <- (insert_delete_eq m k v).
  rewrite <- (insert_delete_id m k v0 Hk) at 2.
  rewrite !count_insert_fresh by apply lookup_delete_eq. reflexivity.
Qed.

Lemma cleanup_expired_data_run st :
  cleanup_expired_data st =
    Returned
      (mkCensus
         (Z.of_nat (length (filter (fun k => String.prefix SESSION_PREFIX k = true)
                              (map_to_list (db st)).*1)))
         (Z.of_nat (length (filter (fun k => String.prefix CONTEXT_PREFIX k = true)
                              (map_to_list (db st)).*1)))
         (Z.of_nat (length (filter (fun k => String.prefix TEMP_PREFIX k = true)
                              (map_to_list (db st)).*1))))
      (State true (db st)).
Proof.
  unfold cleanup_expired_data, bind. rewrite ensure_connected_run.
  reflexivity.
Qed.

(** X20. [cleanup_expired_data] only counts: it leaves the keyspace as it
    is.  Creating a session under an id that had no key raises
    [sessions_active] by one, creating it over an existing key leaves the
    count as it was, and the two other counts do not move. *)
Theorem cleanup_expired_data_counts_only now id email ctx st :
  exists before after st1,
    cleanup_expired_data st = Returned before (State true (db st)) /\
    (await _ <- create_session now id email ctx ;; cleanup_expired_data) st =
      Returned after st1 /\
    sessions_active after =
      (sessions_active before +
       if bool_decide (is_Some (db st !! _session_key id)) then 0 else 1)%Z /\
    contexts_active after = contexts_active before /\
    temp_data_active after = temp_data_active before.
Proof.
  eexists _, _, _. rewrite cleanup_expired_data_run.
  split; [reflexivity|]. unfold bind. rewrite create_session_run.
  cbv beta iota zeta. rewrite cleanup_expired_data_run. cbn [db].
  split; [reflexivity|].
  cbn [sessions_active contexts_active temp_data_active].
  destruct (db st !! _session_key id) as [e|] eqn:Hk.
  - rewrite !count_insert_present by (rewrite Hk; eexists; reflexivity).
    rewrite bool_decide_eq_true_2 by (eexists; reflexivity).
    repeat split. lia.
  - rewrite !count_insert_fresh by exact Hk.
    rewrite bool_decide_eq_false_2 by (intros [? H]; discriminate H).
    rewrite decide_True by (apply prefix_app; exists id; reflexivity).
    rewrite !decide_False
      by (intros H; apply prefix_app in H as [r Hr]; discriminate Hr).
    repeat split. lia.
Qed.

End BulkFacts.

(* ===================================================================== *)
(** * More of the simplified context cache *)
(* ===================================================================== *)

Module SimplifiedCacheFacts.

Import Redis SimplifiedRedisClient RedisClientFacts SessionFacts ContextFacts.

Lemma get_customer_context_run email st :
  get_customer_context email st =
    match db st !! _context_key email with
    | None => Returned None (State true (db st))
    | Some e =>
        match loads (value e) with
        | Some j => Returned (to_optional j) (State true (db st))
        | None =>
            Returned None
              (State true (base.delete (_context_key email) (db st)))
        end
    end.
Proof.
  unfold get_customer_context, bind. rewrite ensure_connected_run, get_run.
  cbn [db]. destruct (db st !! _context_key email) as [e|]; [|reflexivity].
  cbn [fmap option_fmap option_map]. unfold try_except.
  destruct (loads (value e)); reflexivity.
Qed.

Lemma cache_customer_context_run email ctx t st :
  ttl_ok t ->
  cache_customer_context email ctx t st =
    Returned tt
      (State true
         (<[_context_key email :=
              Entry (dumps (JObj ctx)) (Some (ttl_or t CONTEXT_TTL))]> (db st))).
Proof.
  intros Ht. unfold cache_customer_context, bind. rewrite ensure_connected_run.
  rewrite setex_run by (apply ttl_or_accepted; [exact Ht | reflexivity]).
  reflexivity.
Qed.

(** X21. When the context key holds text that is surely not JSON (the
    empty text, text that does not start as a JSON value does, an opening
    brace not followed by a quoted name), the simplified
    [get_customer_context] returns None and deletes that key, leaving every
    other key alone. *)
Theorem get_customer_context_deletes_corrupt_text email st e :
  db st !! _context_key email = Some e ->
  surely_not_json (value e) = true ->
  get_customer_context email st =
    Returned None (State true (base.delete (_context_key email) (db st))).
Proof.
  intros He Hbad.
  rewrite get_customer_context_run, He, (surely_not_json_refused _ Hbad).
  reflexivity.
Qed.

Lemma get_customer_context_deletes_corrupt_text_witness :
  let st := State true
              {[ "context:ann@example.com" := Entry "{not json" (Some 60) ]} in
  get_customer_context "ann@example.com" st =
    Returned None
      (State true (base.delete (_context_key "ann@example.com") (db st))).
Proof.
  intros st.
  apply (get_customer_context_deletes_corrupt_text "ann@example.com" st
           (Entry "{not json" (Some 60))); vm_compute; reflexivity.
Defined.

(** X22. With an expiry the engine accepts (None, or from 0 up to
    [EXPIRE_SAFE] seconds), [cache_customer_context] followed by
    [get_customer_context] returns the mapping that was cached; the key
    expires after the given seconds, or after two hours when the argument
    is missing or 0. *)
Theorem cache_then_get_customer_context email ctx t st :
  wf (JObj ctx) ->
  ttl_ok t ->
  exists st',
    (await _ <- cache_customer_context email ctx t ;;
     get_customer_context email) st = Returned (Some (JObj ctx)) st' /\
    ttl <$> db st' !! _context_key email =
      Some (Some (match t with
                  | Some n => if (n =? 0)%Z then 7200 else n
                  | None => 7200
                  end)).
Proof.
  intros Hwf Ht. eexists. unfold bind.
  rewrite cache_customer_context_run by exact Ht.
  rewrite get_customer_context_run. cbn [db].
  rewrite lookup_insert_eq. cbn [value]. rewrite loads_dumps by exact Hwf.
  split; [reflexivity|]. cbn [db]. rewrite lookup_insert_eq. reflexivity.
Qed.

Lemma cache_then_get_customer_context_witness :
  exists st',
    (await _ <- cache_customer_context "ann@example.com"
                  [("tier", JStr "gold")] (Some 600) ;;
     get_customer_context "ann@example.com") (State false ∅) =
      Returned (Some (JObj [("tier", JStr "gold")])) st' /\
    ttl <$> db st' !! _context_key "ann@example.com" = Some (Some 600).
Proof.
  apply (cache_then_get_customer_context "ann@example.com"
           [("tier", JStr "gold")] (Some 600) (State false ∅)).
  - apply wf_obj. split; [apply NoDup_singleton | repeat constructor].
  - vm_compute. split; discriminate.
Defined.

(** X23. On a mapping [a] cached with an expiry the engine accepts (None,
    or from 0 up to [EXPIRE_SAFE] seconds),
    [update_customer_context(email, u)] returns true and stores the shallow merge, in which the values of [u]
    win; the merged record is written with the default expiry of two hours,
    whatever expiry [a] was cached with. *)
Theorem update_customer_context_merges email a u t st :
  wf (JObj a) ->
  wf (JObj u) ->
  ttl_ok t ->
  exists m st',
    (await _ <- cache_customer_context email a t ;;
     await ok <- update_customer_context email u ;;
     await c <- get_customer_context email ;;
     ret (ok, c)) st = Returned (true, Some (JObj m)) st' /\
    (forall k, dict_get m k = match dict_get u k with
                              | Some v => Some v
                              | None => dict_get a k
                              end) /\
    ttl <$> db st' !! _context_key email = Some (Some 7200).
Proof.
  intros Ha Hu Ht. exists (dict_update a u). eexists. unfold bind.
  rewrite cache_customer_context_run by exact Ht.
  unfold update_customer_context, bind.
  rewrite ensure_connected_run, get_customer_context_run. cbn [db].
  rewrite lookup_insert_eq. cbn [value]. rewrite loads_dumps by exact Ha.
  cbn [to_optional].
  rewrite cache_customer_context_run by exact I. cbn [db].
  rewrite insert_insert_eq. unfold ret. cbv beta iota zeta.
  rewrite get_customer_context_run. cbn [db].
  rewrite lookup_insert_eq. cbn [value].
  rewrite loads_dumps
    by (apply dict_update_wf; [exact Ha | apply wf_obj in Hu; apply Hu]).
  split; [reflexivity|]. split.
  - intros k. apply dict_get_update. apply wf_obj in Hu. apply Hu.
  - cbn [db]. rewrite lookup_insert_eq. reflexivity.
Qed.

Lemma update_customer_context_merges_witness :
  exists m st',
    (await _ <- cache_customer_context "ann@example.com"
                  [("tier", JStr "gold"); ("orders", JInt 3)] (Some 86400) ;;
     await ok <- update_customer_context "ann@example.com" [("orders", JInt 4)] ;;
     await c <- get_customer_context "ann@example.com" ;;
     ret (ok, c)) (State false ∅) = Returned (true, Some (JObj m)) st' /\
    (forall k, dict_get m k = match dict_get [("orders", JInt 4)] k with
                              | Some v => Some v
                              | None =>
                                  dict_get
                                    [("tier", JStr "gold"); ("orders", JInt 3)] k
                              end) /\
    ttl <$> db st' !! _context_key "ann@example.com" = Some (Some 7200).
Proof.
  apply (update_customer_context_merges "ann@example.com"
           [("tier", JStr "gold"); ("orders", JInt 3)] [("orders", JInt 4)]
           (Some 86400) (State false ∅)).
  - apply wf_obj. split; [apply (bool_decide_unpack _); reflexivity|].
    repeat constructor.
  - apply wf_obj. split; [apply NoDup_singleton | repeat constructor].
  - vm_compute. split; discriminate.
Defined.

(** X24. [invalidate_customer_context] returns true exactly when a context
    was cached for the email; it removes that key and no other, and a
    following [get_customer_context] returns None. *)
Theorem invalidate_customer_context_removes_only_its_key email st :
  exists st',
    invalidate_customer_context email st =
      Returned (bool_decide (is_Some (db st !! _context_key email))) st' /\
    db st' = base.delete (_context_key email) (db st) /\
    get_customer_context email st' = Returned None (State true (db st')).
Proof.
  exists (State true (base.delete (_context_key email) (db st))).
  split; [|split; [reflexivity|]].
  - unfold invalidate_customer_context, bind.
    rewrite ensure_connected_run, delete_run. cbn [db with_db connected].
    destruct (bool_decide _); reflexivity.
  - rewrite get_customer_context_run. cbn [db].
    rewrite lookup_delete_eq. reflexivity.
Qed.

(** X25. The two clients share one key layout: a mapping stored by the
    full client's [set_context] is what the simplified client's
    [get_customer_context] returns, and a mapping cached by the simplified
    client is what the full client's [get_context] returns (the expiry
    being one the engine accepts: None, or from 0 up to [EXPIRE_SAFE]
    seconds). *)
Theorem clients_read_each_others_context email ctx t st :
  wf (JObj ctx) ->
  ttl_ok t ->
  (exists st',
      (await _ <- RedisClient.set_context email ctx t ;;
       get_customer_context email) st = Returned (Some (JObj ctx)) st') /\
  (exists st',
      (await _ <- cache_customer_context email ctx t ;;
       RedisClient.get_context email) st = Returned (Some (JObj ctx)) st').
Proof.
  intros Hwf Ht. split; eexists; unfold bind.
  - rewrite set_context_run_ttl by exact Ht.
    rewrite get_customer_context_run. cbn [db].
    change (_context_key email) with (RedisClient._context_key email).
    rewrite lookup_insert_eq. cbn [value]. rewrite loads_dumps by exact Hwf.
    reflexivity.
  - rewrite cache_customer_context_run by exact Ht.
    change (_context_key email) with (RedisClient._context_key email).
    rewrite get_context_stored by exact Hwf. reflexivity.
Qed.

Lemma clients_read_each_others_context_witness :
  (exists st',
      (await _ <- RedisClient.set_context "ann@example.com"
                    [("tier", JStr "gold")] None ;;
       get_customer_context "ann@example.com") (State false ∅) =
        Returned (Some (JObj [("tier", JStr "gold")])) st') /\
  (exists st',
      (await _ <- cache_customer_context "ann@example.com"
                    [("tier", JStr "gold")] None ;;
       RedisClient.get_context "ann@example.com") (State false ∅) =
        Returned (Some (JObj [("tier", JStr "gold")])) st').
Proof.
  apply (clients_read_each_others_context "ann@example.com"
           [("tier", JStr "gold")] None (State false ∅)).
  - apply wf_obj. split; [apply NoDup_singleton | repeat constructor].
  - exact I.
Defined.

(** X26. When the cached value is JSON that is neither a mapping nor null
    (a list, a text, a number, true or false), [update_customer_context]
    raises [AttributeError] and writes nothing; the full client would have
    replaced a falsy one of these by the updates. *)
Theorem update_customer_context_on_non_mapping_raises email u st e j :
  db st !! _context_key email = Some e ->
  loads (value e) = Some j ->
  j <> JNull ->
  (forall d, j <> JObj d) ->
  update_customer_context email u st =
    Raised AttributeError (State true (db st)).
Proof.
  intros He Hj Hnull Hobj. unfold update_customer_context, bind.
  rewrite ensure_connected_run, get_customer_context_run. cbn [db].
  rewrite He, Hj.
  destruct j as [|b|z|s|l|d]; cbn [to_optional]; try reflexivity.
  - destruct (Hnull eq_refl).
  - destruct (Hobj d eq_refl).
Qed.

Lemma update_customer_context_on_non_mapping_raises_witness :
  let st := State true {[ "context:ann@example.com" := Entry "0" (Some 60) ]} in
  update_customer_context "ann@example.com" [("tier", JStr "gold")] st =
    Raised AttributeError (State true (db st)).
Proof.
  intros st.
  apply (update_customer_context_on_non_mapping_raises "ann@example.com"
           [("tier", JStr "gold")] st (Entry "0" (Some 60)) (JInt 0)).
  - vm_compute. reflexivity.
  - vm_compute. reflexivity.
  - discriminate.
  - discriminate.
Defined.

End SimplifiedCacheFacts.

(* ===================================================================== *)
(** * More of the conversation log *)
(* ===================================================================== *)

Module MessageLogFacts.

Import SQLiteClient SQLiteClientFacts.

Lemma max_id_bounds seq ids :
  (seq <= fold_right Z.max seq ids)%Z /\
  Forall (fun i => (i <= fold_right Z.max seq ids)%Z) ids.
Proof.
  induction ids as [|i ids [IHs IHf]]; cbn [fold_right].
  - split; [lia | constructor].
  - split; [lia|]. constructor; [lia|].
    eapply Forall_impl; [exact IHf|]. cbn. intros; lia.
Qed.

Lemma next_id_above st :
  (sqlite_sequence st < next_id st)%Z /\
  Forall (fun r => (id r < next_id st)%Z) (messages st).
Proof.
  unfold next_id.
  destruct (max_id_bounds (sqlite_sequence st) (map id (messages st)))
    as [Hs Hf].
  split; [lia|]. apply Forall_forall. intros r Hr.
  rewrite Forall_forall in Hf.
  assert (Hin : id r ∈ map id (messages st)).
  { apply list_elem_of_In, in_map, list_elem_of_In, Hr. }
  specialize (Hf _ Hin). cbn in Hf. lia.
Qed.

Lemma max_id_after seq ids n :
  (seq <= n)%Z -> Forall (fun i => (i <= n)%Z) ids ->
  fold_right Z.max n (ids ++ [n]) = n.
Proof.
  intros Hs Hf. induction Hf as [|i ids Hi _ IH]; cbn [app fold_right].
  - lia.
  - rewrite IH. lia.
Qed.

Lemma next_id_after st c row :
  id row = next_id st ->
  next_id (State c (conversations st) (messages st ++ [row]) (next_id st)) =
    (next_id st + 1)%Z.
Proof.
  intros Hrow. unfold next_id at 1. cbn [messages sqlite_sequence].
  rewrite map_app. cbn [map]. rewrite Hrow.
  destruct (next_id_above st) as [Hs Hf].
  rewrite (max_id_after (sqlite_sequence st)); [lia | lia |].
  apply Forall_forall. intros i Hi.
  apply list_elem_of_In, in_map_iff in Hi as (r & <- & Hr).
  rewrite Forall_forall in Hf. apply list_elem_of_In in Hr.
  specialize (Hf r Hr). cbn in Hf. lia.
Qed.

(** X27. On a table that can take two more rows, two calls of
    [add_message] append two rows, in call order, after the rows that were
    there, which they leave untouched.  The surrogate ids are fresh and
    increasing: the first is greater than every id in the table, the second
    is the first plus one.  Each row carries the arguments of its call. *)
Theorem add_message_twice_appends_in_order
    t1 sid1 mid1 email1 type1 content1 md1
    t2 sid2 mid2 email2 type2 content2 md2 st :
  (next_id st < MAX_ROWID)%Z ->
  exists r1 r2 st1 st2,
    add_message t1 sid1 mid1 email1 type1 content1 md1 st = Returned tt st1 /\
    add_message t2 sid2 mid2 email2 type2 content2 md2 st1 = Returned tt st2 /\
    messages st2 = messages st ++ [r1; r2] /\
    Forall (fun r => (id r < id r1)%Z) (messages st) /\
    id r2 = (id r1 + 1)%Z /\
    (m_session_id r1, message_id r1, customer_email r1, message_type r1,
     content r1, m_created_at r1) =
      (Some sid1, Some mid1, Some email1, Some type1, Some content1, Some t1) /\
    (m_session_id r2, message_id r2, customer_email r2, message_type r2,
     content r2, m_created_at r2) =
      (Some sid2, Some mid2, Some email2, Some type2, Some content2, Some t2) /\
    conversations st2 = conversations st.
Proof.
  intros Hroom.
  set (r1 := mkMessage (next_id st) (Some sid1) (Some mid1) (Some email1)
               (Some type1) (Some content1)
               (Some (dumps (JObj (or_empty md1)))) (Some t1)).
  set (st1 := State true (conversations st) (messages st ++ [r1]) (next_id st)).
  assert (Hn1 : next_id st1 = (next_id st + 1)%Z)
    by (apply next_id_after; reflexivity).
  exists r1.
  exists (mkMessage (next_id st1) (Some sid2) (Some mid2) (Some email2)
            (Some type2) (Some content2)
            (Some (dumps (JObj (or_empty md2)))) (Some t2)).
  exists st1. eexists.
  rewrite add_message_run by (unfold has_room; lia).
  split; [reflexivity|].
  rewrite add_message_run by (unfold has_room; lia).
  split; [reflexivity|]. cbn [messages conversations SQLiteClient.id st1 r1].
  split; [rewrite <- app_assoc; reflexivity|].
  split; [apply next_id_above|].
  split; [exact Hn1|]. repeat split.
Qed.

Lemma add_message_twice_appends_in_order_witness :
  exists r1 r2 st1 st2,
    add_message "2024-05-01T07:00:00" "s1" "m1" "ann@example.com" "customer"
      "Where is my order?" None (State false [] [] 0) = Returned tt st1 /\
    add_message "2024-05-01T07:00:09" "s1" "m2" "ann@example.com" "agent"
      "Let me check." None st1 = Returned tt st2 /\
    messages st2 = [] ++ [r1; r2] /\
    Forall (fun r => (id r < id r1)%Z) [] /\
    id r2 = (id r1 + 1)%Z /\
    (m_session_id r1, message_id r1, customer_email r1, message_type r1,
     content r1, m_created_at r1) =
      (Some "s1", Some "m1", Some "ann@example.com", Some "customer",
       Some "Where is my order?", Some "2024-05-01T07:00:00") /\
    (m_session_id r2, message_id r2, customer_email r2, message_type r2,
     content r2, m_created_at r2) =
      (Some "s1", Some "m2", Some "ann@example.com", Some "agent",
       Some "Let me check.", Some "2024-05-01T07:00:09") /\
    conversations st2 = [].
Proof.
  apply (add_message_twice_appends_in_order
           "2024-05-01T07:00:00" "s1" "m1" "ann@example.com" "customer"
           "Where is my order?" None
           "2024-05-01T07:00:09" "s1" "m2" "ann@example.com" "agent"
           "Let me check." None (State false [] [] 0)).
  vm_compute. reflexivity.
Defined.

(** X28. [update_conversation] for one session leaves the rows of every
    other session, and all messages, as they were; and if no session id
    occurred twice in the table before the call, none does after it. *)
Theorem update_conversation_touches_one_session utcnow sid status it se st :
  exists st',
    update_conversation utcnow sid status it se st = Returned tt st' /\
    (forall other, other <> sid -> rows_for other st' = rows_for other st) /\
    messages st' = messages st /\
    (pk_unique st -> pk_unique st').
Proof.
  eexists. rewrite update_conversation_run. split; [reflexivity|].
  split; [|split; [reflexivity|]].
  - intros other Hne. unfold rows_for. cbn [conversations].
    set (new := mkConversation sid (Some status) it se (Some utcnow)
                  (Some utcnow)).
    unfold upsert. destruct (existsb (same_key new) (conversations st)).
    + induction (conversations st) as [|r tbl IH]; [reflexivity|].
      cbn [map]. rewrite !filter_cons, IH.
      destruct (same_key new r) eqn:Ek; [|reflexivity].
      apply same_key_spec in Ek. cbn [SQLiteClient.session_id new] in Ek.
      rewrite !decide_False; [reflexivity | | ]; cbn [session_id do_update];
        congruence.
    + rewrite filter_app, filter_cons, decide_False, filter_nil, app_nil_r;
        [reflexivity|]. cbn. congruence.
  - unfold pk_unique. cbn [conversations]. apply upsert_keeps_pk.
Qed.

Lemma or_empty_some md : or_empty (Some md) = md.
Proof. destruct md; reflexivity. Qed.

(** X29. On a table that can take one more row, the metadata mapping
    given to [add_message] is stored as JSON text that [json.loads] reads
    back to the same mapping. *)
Theorem add_message_metadata_round_trip
    utcnow sid mid email mtype content md st :
  has_room st ->
  wf (JObj md) ->
  exists row text st',
    add_message utcnow sid mid email mtype content (Some md) st =
      Returned tt st' /\
    messages st' = messages st ++ [row] /\
    metadata row = Some text /\
    loads text = Some (JObj md).
Proof.
  intros Hroom Hwf. eexists _, _, _. rewrite add_message_run by exact Hroom.
  split; [reflexivity|]. cbn [messages metadata].
  split; [reflexivity|]. split; [reflexivity|].
  rewrite or_empty_some. apply loads_dumps, Hwf.
Qed.

Lemma add_message_metadata_round_trip_witness :
  exists row text st',
    add_message "2024-05-01T07:00:00" "s1" "m1" "ann@example.com" "customer"
      "Where is my order?" (Some [("channel", JStr "email")])
      (State false [] [] 0) = Returned tt st' /\
    messages st' = [] ++ [row] /\
    metadata row = Some text /\
    loads text = Some (JObj [("channel", JStr "email")]).
Proof.
  apply (add_message_metadata_round_trip "2024-05-01T07:00:00" "s1" "m1"
           "ann@example.com" "customer" "Where is my order?"
           [("channel", JStr "email")] (State false [] [] 0)).
  - unfold has_room. vm_compute. discriminate.
  - apply wf_obj. split; [apply NoDup_singleton | repeat constructor].
Defined.

End MessageLogFacts.
